(** * Veritas: the chunked verification pipeline

    A shallow embedding of the pipeline of [src/App.tsx] (segmenter,
    context stitcher, orchestrator, aggregator, exporter) and of the oracle
    adapter of the Gemini service, with the properties of the specification
    stated and proved over it.

    Modelling conventions.
    - A JavaScript string is the list of its UTF-16 code units ([jsstring]).
    - JavaScript numbers that hold indices, lengths and sizes are [Z].  The
      only non-integral quantity of the code is [size * 0.9]; the test
      [lastNewline > i + size * 0.9] is evaluated only when
      [i + size < text.length], and for integers below the maximal string
      length the double-precision result agrees with the exact comparison
      [10 * lastNewline > 10 * i + 9 * size], which is what the embedding
      uses.
    - Values that come out of [JSON.parse] are JSON values ([json]); the
      TypeScript types put on them by a cast are not checked at run time,
      so the embedding keeps them untyped.
    - Exceptions are values of [exn]; code that can throw returns a
      [result]. *)

From Stdlib Require Import List ZArith Lia Bool String Ascii NArith.
From Stdlib Require DecimalPos.
Import ListNotations.
Local Open Scope Z_scope.
#[local] Set Warnings "-register-all".

(** ** Strings as sequences of UTF-16 code units *)

Definition jsstring := list N.

Definition of_string (s : string) : jsstring :=
  map N_of_ascii (list_ascii_of_string s).

Definition NL : N := 10.     (* line feed, '\n' *)
Definition DQ : N := 34.     (* double quote *)

Fixpoint jsstring_eqb (a b : jsstring) : bool :=
  match a, b with
  | [], [] => true
  | x :: a', y :: b' => (x =? y)%N && jsstring_eqb a' b'
  | _, _ => false
  end.

Definition len {A} (s : list A) : Z := Z.of_nat (List.length s).

(** [String.prototype.slice]: a negative bound counts from the end, both
    bounds are clamped to [0, length]. *)
Definition clamp_index (n : Z) (k : Z) : Z :=
  if k <? 0 then Z.max (n + k) 0 else Z.min k n.

Definition slice {A} (s : list A) (from to : Z) : list A :=
  let a := clamp_index (len s) from in
  let b := clamp_index (len s) to in
  firstn (Z.to_nat (b - a)) (skipn (Z.to_nat a) s).

(** [String.prototype.lastIndexOf] for a one-unit search string: the search
    starts at [min (max fromIndex 0) (length - 1)] and goes backward; the
    result is [-1] when no position matches.  [last_index c s k n] looks at
    the first [n] units of [s], which sit at positions [k], [k+1], ..., and
    answers the position of the last [c] among them: a later position is
    preferred to an earlier one, as in a search that goes backward. *)
Fixpoint last_index (c : N) (s : jsstring) (k : Z) (n : nat) {struct n}
    : Z :=
  match n, s with
  | S n', x :: s' =>
      let later := last_index c s' (k + 1) n' in
      if later <? 0 then (if (x =? c)%N then k else -1) else later
  | _, _ => -1
  end.

Definition lastIndexOf (s : jsstring) (c : N) (fromIndex : Z) : Z :=
  let start := Z.min (Z.max fromIndex 0) (len s - 1) in
  if start <? 0 then -1 else last_index c s 0 (S (Z.to_nat start)).

(** ** Segmenter: [createChunks] *)

Record Chunk := mkChunk { text : jsstring; startIndex : Z }.

(** The end of the chunk that starts at [i]: the body of one iteration of
    the [while] loop, up to the assignment of [end]. *)
Definition chunk_end (text : jsstring) (size i : Z) : Z :=
  let e := Z.min (i + size) (len text) in
  if e <? len text then
    let lastNewline := lastIndexOf text NL e in
    if 10 * lastNewline >? 10 * i + 9 * size then lastNewline else e
  else e.

(** The [while (i < text.length)] loop.  The loop of the source has no
    bound, so the embedding takes fuel and answers [None] when it runs
    out. *)
Fixpoint createChunks_loop (fuel : nat) (text : jsstring) (size i : Z)
    (chunks : list Chunk) : option (list Chunk) :=
  match fuel with
  | O => None
  | S fuel' =>
      if i <? len text then
        let e := chunk_end text size i in
        createChunks_loop fuel' text size e
          (chunks ++ [mkChunk (slice text i e) i])
      else Some chunks
  end.

Definition createChunks_fuel (fuel : nat) (text : jsstring) (size : Z) :=
  createChunks_loop fuel text size 0 [].

(** One unit of fuel per code unit, and one for the final test, is
    enough whenever [size >= 1] (see [createChunks_loop_spec]). *)
Definition createChunks (text : jsstring) (size : Z) : option (list Chunk) :=
  createChunks_fuel (S (List.length text)) text size.

Definition texts (chunks : list Chunk) : jsstring :=
  flat_map text chunks.

(** ** Whitespace, [trim], [startsWith] and the fence-stripping helper *)

(** The set shared by [String.prototype.trim] and the regular-expression
    class [\s]: WhiteSpace and LineTerminator of ECMAScript. *)
Definition is_space (c : N) : bool :=
  ((9 <=? c) && (c <=? 13) || (c =? 32) || (c =? 160) || (c =? 5760)
   || (8192 <=? c) && (c <=? 8202) || (c =? 8232) || (c =? 8233)
   || (c =? 8239) || (c =? 8287) || (c =? 12288) || (c =? 65279))%N.

Fixpoint dropWhile {A} (p : A -> bool) (s : list A) : list A :=
  match s with
  | [] => []
  | c :: s' => if p c then dropWhile p s' else s
  end.

Fixpoint dropWhileEnd {A} (p : A -> bool) (s : list A) : list A :=
  match s with
  | [] => []
  | c :: s' =>
      match dropWhileEnd p s' with
      | [] => if p c then [] else [c]
      | r => c :: r
      end
  end.

Definition trim (s : jsstring) : jsstring :=
  dropWhileEnd is_space (dropWhile is_space s).

Definition startsWith (s lit : jsstring) : bool :=
  jsstring_eqb (firstn (List.length lit) s) lit.

Definition endsWith (s lit : jsstring) : bool :=
  (List.length lit <=? List.length s)%nat
  && jsstring_eqb (skipn (List.length s - List.length lit) s) lit.

Definition fence : jsstring := of_string "```".
Definition fence_json : jsstring := of_string "```json".

(** [s.replace(/^<lit>\s*/, '')]: the literal at the very start and the
    longest run of whitespace after it are removed. *)
Definition strip_leading (lit s : jsstring) : jsstring :=
  if startsWith s lit then dropWhile is_space (skipn (List.length lit) s)
  else s.

(** [s.replace(/\s*```$/, '')]: the leftmost match is the closing fence at
    the very end together with the whole run of whitespace before it. *)
Definition strip_trailing_fence (s : jsstring) : jsstring :=
  if endsWith s fence
  then dropWhileEnd is_space (firstn (List.length s - List.length fence) s)
  else s.

Definition cleanJson (text : jsstring) : jsstring :=
  let clean := trim text in
  if startsWith clean fence_json then
    strip_trailing_fence (strip_leading fence_json clean)
  else if startsWith clean fence then
    strip_trailing_fence (strip_leading fence clean)
  else clean.

(** ** JSON values and [JSON.parse] *)

(** A number literal [-]m[e]x, kept as the decimal it denotes:
    (-1)^neg * mantissa * 10^exp10. *)
Record jsnumber := mkNumber { neg : bool; mantissa : N; exp10 : Z }.

Inductive json :=
| JNull
| JBool (b : bool)
| JNumber (n : jsnumber)
| JString (s : jsstring)
| JArray (xs : list json)
| JObject (fields : list (jsstring * json)).

Inductive token :=
| TLBracket | TRBracket | TLBrace | TRBrace | TComma | TColon
| TScalar (v : json).

(** The lexer reads one code unit at a time. *)
Inductive num_state :=
| NMinus | NZero | NInt | NDot | NFrac | NE | NESign | NExp.

Inductive lex_state :=
| LStart
| LLit (rest : jsstring) (v : json)
| LStr (acc : jsstring)
| LEsc (acc : jsstring)
| LHex (acc : jsstring) (remaining : nat) (value : N)
| LNum (st : num_state) (sgn : bool) (m : N) (fracdigits : Z)
       (esgn : bool) (e : N).

Definition is_digit (c : N) : bool := ((48 <=? c) && (c <=? 57))%N.
Definition digit_value (c : N) : N := (c - 48)%N.

Definition hex_value (c : N) : option N :=
  if is_digit c then Some (c - 48)%N
  else if ((65 <=? c) && (c <=? 70))%N then Some (c - 55)%N
  else if ((97 <=? c) && (c <=? 102))%N then Some (c - 87)%N
  else None.

Definition lex_start (c : N) : option (lex_state * list token) :=
  if ((c =? 9) || (c =? 10) || (c =? 13) || (c =? 32))%N
  then Some (LStart, [])
  else if (c =? 91)%N then Some (LStart, [TLBracket])
  else if (c =? 93)%N then Some (LStart, [TRBracket])
  else if (c =? 123)%N then Some (LStart, [TLBrace])
  else if (c =? 125)%N then Some (LStart, [TRBrace])
  else if (c =? 44)%N then Some (LStart, [TComma])
  else if (c =? 58)%N then Some (LStart, [TColon])
  else if (c =? DQ)%N then Some (LStr [], [])
  else if (c =? 45)%N then Some (LNum NMinus true 0 0 false 0, [])
  else if (c =? 48)%N then Some (LNum NZero false 0 0 false 0, [])
  else if is_digit c
  then Some (LNum NInt false (digit_value c) 0 false 0, [])
  else if (c =? 116)%N then Some (LLit (of_string "rue") (JBool true), [])
  else if (c =? 102)%N then Some (LLit (of_string "alse") (JBool false), [])
  else if (c =? 110)%N then Some (LLit (of_string "ull") JNull, [])
  else None.

Definition number_of (sgn : bool) (m : N) (fracdigits : Z) (esgn : bool)
    (e : N) : json :=
  JNumber (mkNumber sgn m
             ((if esgn then - Z.of_N e else Z.of_N e) - fracdigits)).

(** A number ends at the first unit that cannot extend it; that unit is
    then read from the start state. *)
Definition lex_number_end (sgn : bool) (m : N) (fd : Z) (esgn : bool)
    (e c : N) : option (lex_state * list token) :=
  match lex_start c with
  | Some (st, ts) => Some (st, TScalar (number_of sgn m fd esgn e) :: ts)
  | None => None
  end.

Definition is_exp_mark (c : N) : bool := ((c =? 101) || (c =? 69))%N.

Definition lex_step (st : lex_state) (c : N)
    : option (lex_state * list token) :=
  match st with
  | LStart => lex_start c
  | LLit [] _ => None
  | LLit (x :: rest) v =>
      if (c =? x)%N then
        match rest with
        | [] => Some (LStart, [TScalar v])
        | _ => Some (LLit rest v, [])
        end
      else None
  | LStr acc =>
      if (c =? DQ)%N then Some (LStart, [TScalar (JString (rev acc))])
      else if (c =? 92)%N then Some (LEsc acc, [])
      else if (c <? 32)%N then None
      else Some (LStr (c :: acc), [])
  | LEsc acc =>
      if (c =? DQ)%N then Some (LStr (DQ :: acc), [])
      else if (c =? 92)%N then Some (LStr (92%N :: acc), [])
      else if (c =? 47)%N then Some (LStr (47%N :: acc), [])
      else if (c =? 98)%N then Some (LStr (8%N :: acc), [])
      else if (c =? 102)%N then Some (LStr (12%N :: acc), [])
      else if (c =? 110)%N then Some (LStr (10%N :: acc), [])
      else if (c =? 114)%N then Some (LStr (13%N :: acc), [])
      else if (c =? 116)%N then Some (LStr (9%N :: acc), [])
      else if (c =? 117)%N then Some (LHex acc 4 0, [])
      else None
  | LHex acc k v =>
      match hex_value c with
      | None => None
      | Some d =>
          match k with
          | O => None
          | S O => Some (LStr ((v * 16 + d)%N :: acc), [])
          | S k' => Some (LHex acc k' (v * 16 + d)%N, [])
          end
      end
  | LNum ns sgn m fd esgn e =>
      match ns with
      | NMinus =>
          if (c =? 48)%N then Some (LNum NZero sgn 0 fd esgn e, [])
          else if is_digit c
          then Some (LNum NInt sgn (digit_value c) fd esgn e, [])
          else None
      | NZero =>
          if (c =? 46)%N then Some (LNum NDot sgn m fd esgn e, [])
          else if is_exp_mark c then Some (LNum NE sgn m fd esgn e, [])
          else lex_number_end sgn m fd esgn e c
      | NInt =>
          if is_digit c
          then Some (LNum NInt sgn (m * 10 + digit_value c)%N fd esgn e, [])
          else if (c =? 46)%N then Some (LNum NDot sgn m fd esgn e, [])
          else if is_exp_mark c then Some (LNum NE sgn m fd esgn e, [])
          else lex_number_end sgn m fd esgn e c
      | NDot =>
          if is_digit c
          then Some (LNum NFrac sgn (m * 10 + digit_value c)%N (fd + 1)
                       esgn e, [])
          else None
      | NFrac =>
          if is_digit c
          then Some (LNum NFrac sgn (m * 10 + digit_value c)%N (fd + 1)
                       esgn e, [])
          else if is_exp_mark c then Some (LNum NE sgn m fd esgn e, [])
          else lex_number_end sgn m fd esgn e c
      | NE =>
          if (c =? 43)%N then Some (LNum NESign sgn m fd false e, [])
          else if (c =? 45)%N then Some (LNum NESign sgn m fd true e, [])
          else if is_digit c
          then Some (LNum NExp sgn m fd esgn (digit_value c), [])
          else None
      | NESign =>
          if is_digit c
          then Some (LNum NExp sgn m fd esgn (digit_value c), [])
          else None
      | NExp =>
          if is_digit c
          then Some (LNum NExp sgn m fd esgn (e * 10 + digit_value c)%N, [])
          else lex_number_end sgn m fd esgn e c
      end
  end.

Definition lex_end (st : lex_state) : option (list token) :=
  match st with
  | LStart => Some []
  | LNum NZero sgn m fd esgn e
  | LNum NInt sgn m fd esgn e
  | LNum NFrac sgn m fd esgn e
  | LNum NExp sgn m fd esgn e => Some [TScalar (number_of sgn m fd esgn e)]
  | _ => None
  end.

Fixpoint tokenize (st : lex_state) (s : jsstring) : option (list token) :=
  match s with
  | [] => lex_end st
  | c :: s' =>
      match lex_step st c with
      | None => None
      | Some (st', ts) =>
          match tokenize st' s' with
          | None => None
          | Some rest => Some (ts ++ rest)
          end
      end
  end.

(** The parser is a pushdown automaton over the tokens: a frame is an
    array or an object under construction that waits for a value. *)
Inductive frame :=
| FArr (acc : list json)
| FObj (acc : list (jsstring * json)) (key : jsstring).

Inductive pmode :=
| MValue                                   (* a value must follow *)
| MArrStart                                (* after '[': value or ']' *)
| MObjStart                                (* after '{': key or '}' *)
| MKey (acc : list (jsstring * json))      (* after ',' in an object *)
| MColon (acc : list (jsstring * json)) (key : jsstring)
| MDone (v : json).                        (* a value is complete *)

Definition parse_value_token (t : token) (stack : list frame)
    : option (pmode * list frame) :=
  match t with
  | TScalar v => Some (MDone v, stack)
  | TLBracket => Some (MArrStart, FArr [] :: stack)
  | TLBrace => Some (MObjStart, stack)
  | _ => None
  end.

Definition parse_step (m : pmode) (stack : list frame) (t : token)
    : option (pmode * list frame) :=
  match m with
  | MValue => parse_value_token t stack
  | MArrStart =>
      match t, stack with
      | TRBracket, FArr acc :: stack' => Some (MDone (JArray (rev acc)), stack')
      | _, _ => parse_value_token t stack
      end
  | MObjStart =>
      match t with
      | TRBrace => Some (MDone (JObject []), stack)
      | TScalar (JString k) => Some (MColon [] k, stack)
      | _ => None
      end
  | MKey acc =>
      match t with
      | TScalar (JString k) => Some (MColon acc k, stack)
      | _ => None
      end
  | MColon acc k =>
      match t with
      | TColon => Some (MValue, FObj acc k :: stack)
      | _ => None
      end
  | MDone v =>
      match stack, t with
      | FArr acc :: stack', TComma => Some (MValue, FArr (v :: acc) :: stack')
      | FArr acc :: stack', TRBracket =>
          Some (MDone (JArray (rev (v :: acc))), stack')
      | FObj acc k :: stack', TComma => Some (MKey ((k, v) :: acc), stack')
      | FObj acc k :: stack', TRBrace =>
          Some (MDone (JObject (rev ((k, v) :: acc))), stack')
      | _, _ => None
      end
  end.

Fixpoint parse_tokens (m : pmode) (stack : list frame) (ts : list token)
    : option json :=
  match ts with
  | [] => match m, stack with
          | MDone v, [] => Some v
          | _, _ => None
          end
  | t :: ts' =>
      match parse_step m stack t with
      | None => None
      | Some (m', stack') => parse_tokens m' stack' ts'
      end
  end.

(** [JSON.parse]: [None] stands for the SyntaxError it throws.  An object
    keeps its members in source order, duplicates included. *)
Definition JSON_parse (s : jsstring) : option json :=
  match tokenize LStart s with
  | None => None
  | Some ts => parse_tokens MValue [] ts
  end.

(** ** Exceptions and results *)

Inductive exn :=
| TypeError
| Error (message : jsstring)
| ApiError (code : N).       (* what the client library throws on a
                                network or authentication failure *)

Inductive result (A : Type) :=
| Ok (a : A)
| Throw (e : exn).
Arguments Ok {A} a.
Arguments Throw {A} e.

Definition bind {A B} (r : result A) (k : A -> result B) : result B :=
  match r with
  | Ok a => k a
  | Throw e => Throw e
  end.

Notation "x <- r ;; k" := (bind r (fun x => k))
  (at level 61, r at next level, right associativity).

Fixpoint mapM {A B} (f : A -> result B) (xs : list A) : result (list B) :=
  match xs with
  | [] => Ok []
  | x :: xs' => y <- f x ;; ys <- mapM f xs' ;; Ok (y :: ys)
  end.

(** ** Run-time view of the values read by the pipeline *)

(** A JavaScript value read from a parsed response: a JSON value, or
    [None] for [undefined]. *)
Definition jsval := option json.

Fixpoint lookup_last (key : jsstring) (fields : list (jsstring * json))
    : jsval :=
  match fields with
  | [] => None
  | (k, v) :: rest =>
      match lookup_last key rest with
      | Some w => Some w
      | None => if jsstring_eqb k key then Some v else None
      end
  end.

(** [item.key] for the five property names of a verification item.  On an
    object the last member of that name wins, as in [JSON.parse]; [null]
    has no properties and the access throws; a boolean, number, string or
    array has none of these five names. *)
Definition get_prop (item : json) (key : jsstring) : result jsval :=
  match item with
  | JNull => Throw TypeError
  | JObject fields => Ok (lookup_last key fields)
  | _ => Ok None
  end.

(** A number literal denotes zero after rounding to a double when its
    mantissa is zero or its magnitude is at most 2^-1075. *)
Definition number_is_zero (n : jsnumber) : bool :=
  (mantissa n =? 0)%N
  || ((exp10 n <? 0)
      && (Z.of_N (mantissa n) * 2 ^ 1075 <=? 10 ^ (- exp10 n))).

Definition truthy (v : jsval) : bool :=
  match v with
  | None => false
  | Some JNull => false
  | Some (JBool b) => b
  | Some (JNumber n) => negb (number_is_zero n)
  | Some (JString s) => match s with [] => false | _ => true end
  | Some (JArray _) => true
  | Some (JObject _) => true
  end.

(** [v === lit] for a string literal [lit]. *)
Definition strict_eq_string (v : jsval) (lit : jsstring) : bool :=
  match v with
  | Some (JString s) => jsstring_eqb s lit
  | _ => false
  end.

(** What the spread [...v] of an array literal yields: the elements of an
    array, the code points of a string; other JSON values are not
    iterable. *)
Definition is_high_surrogate (c : N) : bool :=
  ((55296 <=? c) && (c <=? 56319))%N.
Definition is_low_surrogate (c : N) : bool :=
  ((56320 <=? c) && (c <=? 57343))%N.

Fixpoint code_points (pending : option N) (s : jsstring) : list jsstring :=
  match s with
  | [] => match pending with Some h => [[h]] | None => [] end
  | c :: s' =>
      match pending with
      | Some h =>
          if is_low_surrogate c then [h; c] :: code_points None s'
          else if is_high_surrogate c then [h] :: code_points (Some c) s'
          else [h] :: [c] :: code_points None s'
      | None =>
          if is_high_surrogate c then code_points (Some c) s'
          else [c] :: code_points None s'
      end
  end.

Definition spread (v : json) : result (list json) :=
  match v with
  | JArray xs => Ok xs
  | JString s => Ok (map JString (code_points None s))
  | _ => Throw TypeError
  end.

(** ** Types of [src/types.ts] *)

Definition ACCURATE : jsstring := of_string "ACCURATE".
Definition PARAPHRASED : jsstring := of_string "PARAPHRASED".
Definition MISATTRIBUTED : jsstring := of_string "MISATTRIBUTED".
Definition UNVERIFIABLE : jsstring := of_string "UNVERIFIABLE".

Definition CheckStatus : list jsstring :=
  [ACCURATE; PARAPHRASED; MISATTRIBUTED; UNVERIFIABLE].

Record AnalysisStats := mkStats {
  accurate : Z;
  paraphrased : Z;
  misattributed : Z;
  unverifiable : Z;
  total : Z
}.

Definition k_location : jsstring := of_string "location".
Definition k_quote_text : jsstring := of_string "quote_text".
Definition k_claimed_source : jsstring := of_string "claimed_source".
Definition k_status : jsstring := of_string "status".
Definition k_notes : jsstring := of_string "notes".

(** A value of the interface [VerificationItem], all five fields strings,
    and the JSON object that carries it at run time. *)
Record VerificationItem := mkItem {
  location : jsstring;
  quote_text : jsstring;
  claimed_source : jsstring;
  status : jsstring;
  notes : jsstring
}.

Definition item_json (it : VerificationItem) : json :=
  JObject [(k_location, JString (location it));
           (k_quote_text, JString (quote_text it));
           (k_claimed_source, JString (claimed_source it));
           (k_status, JString (status it));
           (k_notes, JString (notes it))].

(** ** Oracle adapter: [verifyManuscript] *)

(** What the awaited [ai.models.generateContent] call gives: it rejects,
    or it resolves to a response whose [text] is a string or undefined. *)
Inductive oracle_outcome :=
| Rejected (e : exn)
| Responded (text : option jsstring).

Definition getGeminiClient (apiKey : jsstring) : result unit :=
  match apiKey with
  | [] => Throw (Error (of_string "API Configuration Error: Missing API Key."))
  | _ => Ok tt
  end.

(** The prompt and the configuration (response schema included) are fixed
    text around the chunk, so the oracle is a function of the chunk text.
    Nothing of the response schema is consulted after the call. *)
Definition verifyManuscript (oracle : jsstring -> oracle_outcome)
    (text apiKey : jsstring) : result json :=
  _ <- getGeminiClient apiKey ;;
  match oracle text with
  | Rejected e => Throw e
  | Responded None => Ok (JArray [])
  | Responded (Some []) => Ok (JArray [])
  | Responded (Some jsonText) =>
      match JSON_parse (cleanJson jsonText) with
      | Some v => Ok v
      | None => Ok (JArray [])
      end
  end.

(** ** Context stitcher: the annotation step of [handleAnalyze] *)

Fixpoint span_digits (s : jsstring) : jsstring * jsstring :=
  match s with
  | c :: s' =>
      if is_digit c then let (ds, r) := span_digits s' in (c :: ds, r)
      else ([], s)
  | [] => ([], [])
  end.

Definition LBRACKET : N := 91.
Definition RBRACKET : N := 93.
Definition UPPER_P : N := 80.

(** A match of [/\[P(\d+)\]/] at the very start of [s]: the matched text.
    The digits are taken greedily; giving one back cannot help, since what
    follows would be a digit and not the closing bracket. *)
Definition match_marker (s : jsstring) : option jsstring :=
  match s with
  | c1 :: c2 :: r =>
      if ((c1 =? LBRACKET) && (c2 =? UPPER_P))%N then
        match span_digits r with
        | (d :: ds, c3 :: _) =>
            if (c3 =? RBRACKET)%N
            then Some (LBRACKET :: UPPER_P :: (d :: ds) ++ [RBRACKET])
            else None
        | _ => None
        end
      else None
  | _ => None
  end.

(** [[...s.matchAll(/\[P(\d+)\]/g)]], each match reduced to its element 0
    (the matched text): matches are found left to right and the search
    resumes after the end of a match ([skip] counts the units of the
    current match that are still to be passed). *)
Fixpoint matchAll_marker_from (skip : nat) (s : jsstring) : list jsstring :=
  match s with
  | [] => []
  | _ :: s' =>
      match skip with
      | S k => matchAll_marker_from k s'
      | O =>
          match match_marker s with
          | Some m => m :: matchAll_marker_from (List.length m - 1) s'
          | None => matchAll_marker_from 0 s'
          end
      end
  end.

Definition matchAll_marker (s : jsstring) : list jsstring :=
  matchAll_marker_from 0 s.

Definition context_prefix (lastPage : jsstring) : jsstring :=
  of_string "(Context: Continued from " ++ lastPage ++ of_string ")" ++ [NL].

(** The text sent for chunk number [i]: lines 175-186 of the loop body. *)
Definition annotate (inputText : jsstring) (i : Z) (chunk : Chunk)
    : jsstring :=
  let chunkContent := text chunk in
  if i >? 0 then
    let textBefore := slice inputText 0 (startIndex chunk) in
    let matches := matchAll_marker textBefore in
    if len matches >? 0 then
      let lastPage := last matches [] in
      context_prefix lastPage ++ chunkContent
    else chunkContent
  else chunkContent.

(** ** Orchestrator: [handleAnalyze] *)

Definition CHUNK_SIZE : Z := 30000.

Module Progress.
Record t := mk { current : Z; total : Z }.
End Progress.

(** The part of the component state that [handleAnalyze] reads and
    writes, as the handler's own calls define it: a field holds the value
    last given to its setter, and the result set the outcome of the
    updates applied to it so far. *)
Record AppState := mkState {
  inputText : jsstring;
  apiKey : jsstring;
  results : list json;
  isProcessing : bool;
  error : option jsstring;
  progress : option Progress.t
}.

Definition setResults (v : list json) (st : AppState) : AppState :=
  mkState (inputText st) (apiKey st) v (isProcessing st) (error st)
          (progress st).
Definition setIsProcessing (v : bool) (st : AppState) : AppState :=
  mkState (inputText st) (apiKey st) (results st) v (error st) (progress st).
Definition setError (v : option jsstring) (st : AppState) : AppState :=
  mkState (inputText st) (apiKey st) (results st) (isProcessing st) v
          (progress st).
Definition setProgress (v : option Progress.t) (st : AppState) : AppState :=
  mkState (inputText st) (apiKey st) (results st) (isProcessing st)
          (error st) v.

(** What an observer of a run sees besides the state: each chunk text
    handed to [verifyManuscript], and each value given to [setProgress]. *)
Inductive event :=
| EvVerify (chunkContent : jsstring)
| EvProgress (p : option Progress.t).

Inductive loop_exit :=
| LoopDone                     (* the [for] loop ran to its end *)
| LoopThrew (e : exn)          (* the awaited call threw: to [catch] *)
| LoopUpdaterThrew (e : exn) (caught : option exn).
    (* a function given to [setResults] could not spread its argument.
       The function is run by the renderer, not by the handler: [e] is
       raised when the update is applied, out of reach of the handler's
       [try], and the handler goes on with the loop, which it leaves as
       [caught] says: at its end ([None]) or by a call that threw
       ([Some]) *)

Definition loop_caught (exit : loop_exit) : option exn :=
  match exit with
  | LoopDone => None
  | LoopThrew e => Some e
  | LoopUpdaterThrew _ caught => caught
  end.

(** The [for] loop over the chunks; [i] is the loop index and [n] is
    [chunks.length].  [setResults] is given a function of the previous
    result set; when that function throws, the result set keeps the value
    it had (no later update is applied to it), and the loop continues:
    [setProgress] and the calls on the remaining chunks are the
    handler's own steps. *)
Fixpoint process_chunks (fullText key : jsstring)
    (oracle : nat -> jsstring -> oracle_outcome) (n : Z) (i : nat)
    (chunks : list Chunk) (st : AppState) (log : list event)
    : loop_exit * AppState * list event :=
  match chunks with
  | [] => (LoopDone, st, log)
  | chunk :: rest =>
      let chunkContent := annotate fullText (Z.of_nat i) chunk in
      let log1 := log ++ [EvVerify chunkContent] in
      match verifyManuscript (oracle i) chunkContent key with
      | Throw e => (LoopThrew e, st, log1)
      | Ok chunkResults =>
          let p := Some (Progress.mk (Z.of_nat i + 1) n) in
          match spread chunkResults with
          | Throw e =>
              match process_chunks fullText key oracle n (S i) rest
                      (setProgress p st) (log1 ++ [EvProgress p]) with
              | (exit, st', log') =>
                  (LoopUpdaterThrew e (loop_caught exit),
                   setResults (results st) st', log')
              end
          | Ok items =>
              process_chunks fullText key oracle n (S i) rest
                (setProgress p (setResults (results st ++ items) st))
                (log1 ++ [EvProgress p])
          end
      end
  end.

Definition msg_no_key : jsstring :=
  of_string "Please configure your Gemini API Key first.".
Definition msg_no_text : jsstring :=
  of_string "Please input or upload text to verify.".
Definition msg_failed : jsstring :=
  of_string "Verification process encountered an error. Please check your API Key and try again.".

Inductive ending :=
| Returned                     (* the handler ran to its end, and every
                                  update of the result set was applied *)
| UpdaterThrew (e : exn)       (* the handler ran to its end, [finally]
                                  included, but an update of the result
                                  set threw [e] in the renderer: see
                                  [LoopUpdaterThrew] *)
| Diverged.                    (* [createChunks] did not return *)

Record run := mkRun {
  final : AppState;
  log : list event;
  ended : ending
}.

(** The [finally] block. *)
Definition finish (st : AppState) (l : list event) : run :=
  mkRun (setProgress None (setIsProcessing false st))
        (l ++ [EvProgress None]) Returned.

(** A run of the handler during which an update of the result set threw
    in the renderer. *)
Definition updater_threw (e : exn) (r : run) : run :=
  mkRun (final r) (log r) (UpdaterThrew e).

Definition handleAnalyze (oracle : nat -> jsstring -> oracle_outcome)
    (st : AppState) : run :=
  match apiKey st with
  | [] => mkRun (setError (Some msg_no_key) st) [] Returned
  | _ =>
      match trim (inputText st) with
      | [] => mkRun (setError (Some msg_no_text) st) [] Returned
      | _ =>
          let st1 :=
            setProgress None
              (setResults [] (setIsProcessing true (setError None st))) in
          let log1 := [EvProgress None] in
          match createChunks (inputText st) CHUNK_SIZE with
          | None => mkRun st1 log1 Diverged
          | Some chunks =>
              let p0 := Some (Progress.mk 0 (len chunks)) in
              match process_chunks (inputText st) (apiKey st) oracle
                      (len chunks) 0 chunks (setProgress p0 st1)
                      (log1 ++ [EvProgress p0]) with
              | (LoopDone, st2, l) => finish st2 l
              | (LoopThrew _, st2, l) =>
                  finish (setError (Some msg_failed) st2) l
              | (LoopUpdaterThrew e None, st2, l) =>
                  updater_threw e (finish st2 l)
              | (LoopUpdaterThrew e (Some _), st2, l) =>
                  updater_threw e
                    (finish (setError (Some msg_failed) st2) l)
              end
          end
      end
  end.

(** ** Aggregator: [stats] *)

Definition stats_step (s : AnalysisStats) (r : json) : result AnalysisStats :=
  st <- get_prop r k_status ;;
  Ok (if strict_eq_string st ACCURATE then
        mkStats (accurate s + 1) (paraphrased s) (misattributed s)
                (unverifiable s) (total s)
      else if strict_eq_string st PARAPHRASED then
        mkStats (accurate s) (paraphrased s + 1) (misattributed s)
                (unverifiable s) (total s)
      else if strict_eq_string st MISATTRIBUTED then
        mkStats (accurate s) (paraphrased s) (misattributed s + 1)
                (unverifiable s) (total s)
      else if strict_eq_string st UNVERIFIABLE then
        mkStats (accurate s) (paraphrased s) (misattributed s)
                (unverifiable s + 1) (total s)
      else s).

(** [results.forEach] with a callback that updates [s]. *)
Fixpoint forEach {S A} (f : S -> A -> result S) (xs : list A) (s : S)
    : result S :=
  match xs with
  | [] => Ok s
  | x :: xs' => s' <- f s x ;; forEach f xs' s'
  end.

Definition stats (rs : list json) : result AnalysisStats :=
  forEach stats_step rs (mkStats 0 0 0 0 (len rs)).

(** ** Exporter: [handleExportCSV] *)

(** [s.replace(/c/g, rep)] for a one-unit pattern. *)
Definition replace_all (c : N) (rep s : jsstring) : jsstring :=
  flat_map (fun x => if (x =? c)%N then rep else [x]) s.

(** [Array.prototype.join] on an array of strings. *)
Fixpoint join (sep : jsstring) (xs : list jsstring) : jsstring :=
  match xs with
  | [] => []
  | [x] => x
  | x :: rest => x ++ sep ++ join sep rest
  end.

(** [escape]: a falsy argument is replaced by the empty string; [replace]
    exists on strings only. *)
Definition escape (str : jsval) : result jsstring :=
  match (if truthy str then str else Some (JString [])) with
  | Some (JString s) => Ok ([DQ] ++ replace_all DQ [DQ; DQ] s ++ [DQ])
  | _ => Throw TypeError
  end.

Definition headers : list jsstring :=
  [of_string "Location"; of_string "Quote"; of_string "Claimed Source";
   of_string "Status"; of_string "Notes"].

Definition COMMA : jsstring := of_string ",".

Definition csv_row (item : json) : result jsstring :=
  v1 <- get_prop item k_location ;; f1 <- escape v1 ;;
  v2 <- get_prop item k_quote_text ;; f2 <- escape v2 ;;
  v3 <- get_prop item k_claimed_source ;; f3 <- escape v3 ;;
  v4 <- get_prop item k_status ;; f4 <- escape v4 ;;
  v5 <- get_prop item k_notes ;; f5 <- escape v5 ;;
  Ok (join COMMA [f1; f2; f3; f4; f5]).

(** The content of the downloaded file; [None] when the handler returns
    at once and nothing is downloaded. *)
Definition handleExportCSV (rs : list json) : result (option jsstring) :=
  match rs with
  | [] => Ok None
  | _ =>
      rows <- mapM csv_row rs ;;
      let csvContent := join [NL] (join COMMA headers :: rows) in
      Ok (Some csvContent)
  end.

(** ** File parsing: [parsePdf], [parseDocx], [handleFileChange] *)

(** The decimal digits of a number, as a template literal writes a
    non-negative integer. *)
Fixpoint units_of_uint (d : Decimal.uint) : jsstring :=
  match d with
  | Decimal.Nil => []
  | Decimal.D0 d => 48%N :: units_of_uint d
  | Decimal.D1 d => 49%N :: units_of_uint d
  | Decimal.D2 d => 50%N :: units_of_uint d
  | Decimal.D3 d => 51%N :: units_of_uint d
  | Decimal.D4 d => 52%N :: units_of_uint d
  | Decimal.D5 d => 53%N :: units_of_uint d
  | Decimal.D6 d => 54%N :: units_of_uint d
  | Decimal.D7 d => 55%N :: units_of_uint d
  | Decimal.D8 d => 56%N :: units_of_uint d
  | Decimal.D9 d => 57%N :: units_of_uint d
  end.

Definition number_to_string (n : N) : jsstring :=
  units_of_uint (N.to_uint n).

Definition page_marker (i : N) : jsstring :=
  [LBRACKET; UPPER_P] ++ number_to_string i ++ [RBRACKET].

(** What one page adds to [fullText]: the tag of the page on a line of
    its own, the strings of the page joined by spaces, two line feeds. *)
Definition page_block (i : N) (strs : list jsstring) : jsstring :=
  [NL] ++ page_marker i ++ [NL] ++ join [32%N] strs ++ [NL; NL].

(** The [for] loop over the pages, [i] being the page number. *)
Fixpoint parsePdf_pages (i : N) (pages : list (list jsstring))
    (fullText : jsstring) : jsstring :=
  match pages with
  | [] => fullText
  | strs :: rest => parsePdf_pages (i + 1) rest (fullText ++ page_block i strs)
  end.

(** The PDF library gives the strings of every page, or fails ([None]);
    any failure is rethrown as the same error. *)
Definition parsePdf (doc : option (list (list jsstring))) : result jsstring :=
  match doc with
  | Some pages => Ok (parsePdf_pages 1 pages [])
  | None => Throw (Error (of_string "Failed to parse PDF file."))
  end.

Definition docx_header : jsstring :=
  of_string "[Word Document Content]" ++ [NL].

(** The DOCX library gives the raw text, or fails ([None]). *)
Definition parseDocx (doc : option jsstring) : result jsstring :=
  match doc with
  | Some value => Ok (docx_header ++ value)
  | None => Throw (Error (of_string "Failed to parse Word file."))
  end.

(** An uploaded file: its name, its type, and what each reader gives on
    its content ([None] when the reader fails). *)
Record File := mkFile {
  file_name : jsstring;
  file_type : jsstring;
  pdf_pages : option (list (list jsstring));
  docx_value : option jsstring;
  plain_text : option jsstring
}.

Definition TYPE_PDF : jsstring := of_string "application/pdf".
Definition TYPE_DOCX : jsstring :=
  of_string "application/vnd.openxmlformats-officedocument.wordprocessingml.document".

Definition msg_bad_file : jsstring :=
  of_string "Error parsing file. Please ensure it is a valid PDF, DOCX, or Text file.".

(** The part of the component state that [handleFileChange] writes. *)
Record UploadState := mkUpload {
  up_fileName : option jsstring;
  up_error : option jsstring;
  up_isParsing : bool;
  up_inputText : jsstring;
  up_results : list json
}.

Definition read_file (f : File) : result jsstring :=
  if jsstring_eqb (file_type f) TYPE_PDF then parsePdf (pdf_pages f)
  else if jsstring_eqb (file_type f) TYPE_DOCX then parseDocx (docx_value f)
  else match plain_text f with
       | Some t => Ok t
       | None => Throw (Error [])
       end.

Definition setUpFileName (v : option jsstring) (st : UploadState) :=
  mkUpload v (up_error st) (up_isParsing st) (up_inputText st)
           (up_results st).
Definition setUpError (v : option jsstring) (st : UploadState) :=
  mkUpload (up_fileName st) v (up_isParsing st) (up_inputText st)
           (up_results st).
Definition setUpIsParsing (v : bool) (st : UploadState) :=
  mkUpload (up_fileName st) (up_error st) v (up_inputText st)
           (up_results st).
Definition setUpInputText (v : jsstring) (st : UploadState) :=
  mkUpload (up_fileName st) (up_error st) (up_isParsing st) v
           (up_results st).
Definition setUpResults (v : list json) (st : UploadState) :=
  mkUpload (up_fileName st) (up_error st) (up_isParsing st)
           (up_inputText st) v.

Definition handleFileChange (file : option File) (st : UploadState)
    : UploadState :=
  match file with
  | None => st
  | Some f =>
      let st1 :=
        setUpResults []
          (setUpInputText []
             (setUpIsParsing true
                (setUpError None (setUpFileName (Some (file_name f)) st)))) in
      let st2 :=
        match read_file f with
        | Ok t => setUpInputText t st1
        | Throw _ => setUpFileName None (setUpError (Some msg_bad_file) st1)
        end in
      setUpIsParsing false st2
  end.

(** ** Display of long texts: [displayText] *)

Definition DISPLAY_LIMIT : Z := 50000.

Definition truncation_notice : jsstring :=
  [NL; NL] ++ of_string "... [Content Truncated for Display Performance] ...".

Definition displayText (txt : jsstring) : jsstring :=
  if len txt >? DISPLAY_LIMIT
  then slice txt 0 DISPLAY_LIMIT ++ truncation_notice
  else txt.

(** ** Key storage: [handleApiKeyChange] and the load on mount *)

(** The local storage: the items in order of insertion, one per key. *)
Definition Storage := list (jsstring * jsstring).

Fixpoint getItem (k : jsstring) (s : Storage) : option jsstring :=
  match s with
  | [] => None
  | (k', v) :: rest => if jsstring_eqb k' k then Some v else getItem k rest
  end.

Fixpoint setItem (k v : jsstring) (s : Storage) : Storage :=
  match s with
  | [] => [(k, v)]
  | (k', v') :: rest =>
      if jsstring_eqb k' k then (k, v) :: rest else (k', v') :: setItem k v rest
  end.

Definition KEY_NAME : jsstring := of_string "gemini_api_key".

(** [handleApiKeyChange]: the new key goes to the state and to the
    storage. *)
Definition handleApiKeyChange (newKey : jsstring) (s : Storage)
    : jsstring * Storage :=
  (newKey, setItem KEY_NAME newKey s).

(** The effect run on mount: a stored key that is not empty replaces the
    key of the state. *)
Definition load_stored_key (s : Storage) (key : jsstring) : jsstring :=
  match getItem KEY_NAME s with
  | Some (c :: k) => c :: k
  | _ => key
  end.

(** ** Vocabulary of the specification *)

(** The unit at position [j] of [s], if there is one. *)
Definition charAt (s : jsstring) (j : Z) : option N :=
  if j <? 0 then None else nth_error s (Z.to_nat j).

(** A positional marker: an opening bracket, [P], one digit or more, a
    closing bracket. *)
Definition is_marker (m : jsstring) : Prop :=
  exists ds, ds <> [] /\ Forall (fun d => is_digit d = true) ds
             /\ m = LBRACKET :: UPPER_P :: ds ++ [RBRACKET].

(** [m] occurs in [s] at position [p], and lies in [s] entirely. *)
Definition occurs_at (m s : jsstring) (p : nat) : Prop :=
  firstn (List.length m) (skipn p s) = m.

(** The markers of [s] in order of position, every position tried. *)
Fixpoint all_markers (s : jsstring) : list jsstring :=
  match s with
  | [] => []
  | _ :: s' =>
      match match_marker s with
      | Some m => m :: all_markers s'
      | None => all_markers s'
      end
  end.

(** Schema validity of an item, in the words of the specification: the
    fields [location], [quote_text] and [status] are present and the status
    is one of the four values of the enumeration. *)
Definition schema_valid (item : json) : Prop :=
  (exists v, get_prop item k_location = Ok (Some v))
  /\ (exists v, get_prop item k_quote_text = Ok (Some v))
  /\ (exists s, In s CheckStatus
                /\ get_prop item k_status = Ok (Some (JString s))).

(** The status of an item is one of the four values of the enumeration. *)
Definition enum_status (r : json) : Prop :=
  exists s, In s CheckStatus /\ get_prop r k_status = Ok (Some (JString s)).

(** The number of items whose status is the string [lit]. *)
Definition has_status (lit : jsstring) (r : json) : bool :=
  match get_prop r k_status with
  | Ok v => strict_eq_string v lit
  | Throw _ => false
  end.

Definition count_status (lit : jsstring) (rs : list json) : Z :=
  len (filter (has_status lit) rs).

(** The CSV text in the words of the specification: every field between
    double quotes, each double quote inside it written twice, the fields
    of an item in the fixed column order separated by commas, the header
    row of the column names first, then one line per item. *)
Fixpoint double_quotes (s : jsstring) : jsstring :=
  match s with
  | [] => []
  | c :: s' =>
      if (c =? DQ)%N then DQ :: DQ :: double_quotes s'
      else c :: double_quotes s'
  end.

Definition spec_field (s : jsstring) : jsstring :=
  [DQ] ++ double_quotes s ++ [DQ].

Definition spec_row (it : VerificationItem) : jsstring :=
  spec_field (location it) ++ COMMA ++ spec_field (quote_text it) ++ COMMA
  ++ spec_field (claimed_source it) ++ COMMA ++ spec_field (status it)
  ++ COMMA ++ spec_field (notes it).

(** A header line, then one line per item; nothing for no item. *)
Definition csv_lines (header : jsstring) (its : list VerificationItem)
    : option jsstring :=
  match its with
  | [] => None
  | _ => Some (header ++ flat_map (fun it => NL :: spec_row it) its)
  end.

(** The header row of the specification: the literal column names, in the
    column order.  [spec_header_quoted] is the same row read with the
    names between double quotes, as the fields are. *)
Definition spec_header : jsstring :=
  of_string "location,quote_text,claimed_source,status,notes".

Definition spec_header_quoted : jsstring :=
  [DQ] ++ of_string "location" ++ [DQ] ++ of_string ","
  ++ [DQ] ++ of_string "quote_text" ++ [DQ] ++ of_string ","
  ++ [DQ] ++ of_string "claimed_source" ++ [DQ] ++ of_string ","
  ++ [DQ] ++ of_string "status" ++ [DQ] ++ of_string ","
  ++ [DQ] ++ of_string "notes" ++ [DQ].

Definition spec_toCsv (its : list VerificationItem) : option jsstring :=
  csv_lines spec_header its.

(** The header line found in the exported text: titles for a reader, not
    the column names. *)
Definition header_row : jsstring :=
  of_string "Location,Quote,Claimed Source,Status,Notes".

(** [chained T i cs]: the chunks [cs] are consecutive non-empty slices of
    [T], the first one starts at [i] and the last one ends where [T]
    ends. *)
Fixpoint chained (T : jsstring) (i : Z) (cs : list Chunk) : Prop :=
  match cs with
  | [] => i = len T
  | c :: rest =>
      startIndex c = i
      /\ text c = slice T i (i + len (text c))
      /\ 0 < len (text c)
      /\ i + len (text c) <= len T
      /\ chained T (i + len (text c)) rest
  end.

(** The events of a run that stops at chunk number [k] (counted from 0)
    after [k] completed chunks. *)
Definition chunk_content (fullText : jsstring) (chunks : list Chunk)
    (j : nat) : jsstring :=
  match nth_error chunks j with
  | Some c => annotate fullText (Z.of_nat j) c
  | None => []
  end.

Definition completed_events (fullText : jsstring) (chunks : list Chunk)
    (from k : nat) : list event :=
  flat_map (fun j => [EvVerify (chunk_content fullText chunks j);
                      EvProgress (Some (Progress.mk (Z.of_nat j + 1)
                                          (len chunks)))])
           (seq from k).

(** The state after the chunks number [from], ..., [from + k - 1] have
    completed, chunk [j] having given the items [items j]. *)
Definition after_chunks (items : nat -> list json) (n : Z) (from k : nat)
    (st : AppState) : AppState :=
  fold_left
    (fun s j => setProgress (Some (Progress.mk (Z.of_nat j + 1) n))
                  (setResults (results s ++ items j) s))
    (seq from k) st.

(** The values given to [setProgress] in the course of a run, in order. *)
Definition reported (l : list event) : list (option Progress.t) :=
  flat_map (fun ev => match ev with
                      | EvProgress p => [p]
                      | EvVerify _ => []
                      end) l.

(** The chunk texts handed to [verifyManuscript], in order. *)
Definition verified (l : list event) : list jsstring :=
  flat_map (fun ev => match ev with
                      | EvVerify t => [t]
                      | EvProgress _ => []
                      end) l.

(** ** Sample data *)

(** Nine letters, a line feed at position 9, ten letters. *)
Definition sample_text : jsstring :=
  of_string "aaaaaaaaa" ++ [NL] ++ of_string "bbbbbbbbbb".

(** Ten letters, a line feed at position 10, ten letters. *)
Definition sample_text_late_break : jsstring :=
  of_string "aaaaaaaaaa" ++ [NL] ++ of_string "bbbbbbbbbb".

(** The notes [He said "stop".] and the CSV field they export to. *)
Definition he_said_stop : jsstring :=
  of_string "He said " ++ [DQ] ++ of_string "stop" ++ [DQ] ++ of_string ".".

Definition he_said_stop_field : jsstring :=
  [DQ] ++ of_string "He said " ++ [DQ; DQ] ++ of_string "stop" ++ [DQ; DQ]
  ++ of_string "." ++ [DQ].

Definition sample_item : VerificationItem :=
  mkItem (of_string "Page 5, Para 2") (of_string "To be, or not to be")
         (of_string "Hamlet") ACCURATE he_said_stop.

Definition sample_item_2 : VerificationItem :=
  mkItem (of_string "Page 6, Para 1") (of_string "Cogito") []
         UNVERIFIABLE (of_string "no source found").

(** The text [[P1]\nAlpha\n[P2]\nBeta] of the specification; the marker
    [[P2]] sits at positions 11 to 14. *)
Definition sample_pages : jsstring :=
  of_string "[P1]" ++ [NL] ++ of_string "Alpha" ++ [NL] ++ of_string "[P2]"
  ++ [NL] ++ of_string "Beta".

Definition marker_P2 : jsstring := of_string "[P2]".

(** A string literal in which every apostrophe stands for a double
    quote. *)
Definition with_quotes (s : string) : jsstring :=
  map (fun c => if (c =? 39)%N then DQ else c) (of_string s).

Definition sample_key : jsstring := of_string "secret".

(** A response whose only item has no location and no quote_text, and a
    status outside the enumeration. *)
Definition bogus_response : jsstring := with_quotes "[{'status':'BOGUS'}]".

Definition bogus_item : json :=
  JObject [(k_status, JString (of_string "BOGUS"))].

Definition oracle_bogus : nat -> jsstring -> oracle_outcome :=
  fun _ _ => Responded (Some bogus_response).

Definition small_state : AppState :=
  mkState (of_string "He wrote: never mind.") sample_key [] false None None.

(** A fenced response that is not JSON. *)
Definition fenced_garbage : jsstring :=
  of_string "```json" ++ [NL] ++ of_string "I found no quotations." ++ [NL]
  ++ of_string "```".

Definition oracle_garbage : nat -> jsstring -> oracle_outcome :=
  fun _ _ => Responded (Some fenced_garbage).

Definition oracle_down : nat -> jsstring -> oracle_outcome :=
  fun _ _ => Rejected (ApiError 503).

(** A text of 30001 units: two chunks, of 30000 units and of 1 unit. *)
Definition long_text : jsstring := repeat 97%N (Z.to_nat 30001).

Definition long_state : AppState :=
  mkState long_text sample_key [] false None None.

Definition one_item_response : jsstring :=
  with_quotes
    "[{'location':'Page 1, Para 1','quote_text':'Cogito','status':'ACCURATE','notes':'ok'}]".

Definition one_item : json :=
  JObject [(k_location, JString (of_string "Page 1, Para 1"));
           (k_quote_text, JString (of_string "Cogito"));
           (k_status, JString ACCURATE);
           (k_notes, JString (of_string "ok"))].

(** An oracle that answers the first call with one item and fails on
    every later call. *)
Definition oracle_fails_second : nat -> jsstring -> oracle_outcome :=
  fun i _ => match i with
             | O => Responded (Some one_item_response)
             | S _ => Rejected (ApiError 503)
             end.

(** An oracle whose every response is a JSON object: a value that parses,
    is no array, and cannot be spread. *)
Definition object_response : jsstring := of_string "{}".

Definition oracle_object : nat -> jsstring -> oracle_outcome :=
  fun _ _ => Responded (Some object_response).

(** ** Further vocabulary *)

(** [stepped T size i cs]: the chunks [cs] are what the loop pushes from
    cursor [i] on, each one ending where [chunk_end] says. *)
Fixpoint stepped (T : jsstring) (size i : Z) (cs : list Chunk) : Prop :=
  match cs with
  | [] => len T <= i
  | c :: rest =>
      i < len T
      /\ c = mkChunk (slice T i (chunk_end T size i)) i
      /\ stepped T size (chunk_end T size i) rest
  end.

Definition b2z (b : bool) : Z := if b then 1 else 0.

(** The counters after one more item has been looked at. *)
Definition bump (s : AnalysisStats) (r : json) : AnalysisStats :=
  mkStats (accurate s + b2z (has_status ACCURATE r))
          (paraphrased s + b2z (has_status PARAPHRASED r))
          (misattributed s + b2z (has_status MISATTRIBUTED r))
          (unverifiable s + b2z (has_status UNVERIFIABLE r))
          (total s).

(** A run of whitespace, and a string that is not empty and neither
    begins nor ends with whitespace. *)
Definition blank (s : jsstring) : Prop :=
  Forall (fun c => is_space c = true) s.

Definition tight (s : jsstring) : Prop :=
  s <> [] /\ is_space (hd 0%N s) = false /\ is_space (last s 0%N) = false.

Definition BACKTICK : N := 96.
Definition LOWER_J : N := 106.












(** A reader of the exported text, as a spreadsheet reads it: a quoted
    field ends at the first double quote that is not doubled; a row is
    five quoted fields separated by commas; after the header line every
    row is preceded by a line feed. *)
Fixpoint read_quoted (s : jsstring) : option (jsstring * jsstring) :=
  match s with
  | [] => None
  | c :: s' =>
      if (c =? DQ)%N then
        match s' with
        | c2 :: s'' =>
            if (c2 =? DQ)%N then
              match read_quoted s'' with
              | Some (f, r) => Some (DQ :: f, r)
              | None => None
              end
            else Some ([], s')
        | [] => Some ([], [])
        end
      else
        match read_quoted s' with
        | Some (f, r) => Some (c :: f, r)
        | None => None
        end
  end.

Definition read_field (s : jsstring) : option (jsstring * jsstring) :=
  match s with
  | c :: s' => if (c =? DQ)%N then read_quoted s' else None
  | [] => None
  end.

Definition read_comma_field (s : jsstring) : option (jsstring * jsstring) :=
  match s with
  | c :: s' => if (c =? 44)%N then read_field s' else None
  | [] => None
  end.

Definition read_row (s : jsstring) : option (VerificationItem * jsstring) :=
  match read_field s with
  | Some (f1, s1) =>
      match read_comma_field s1 with
      | Some (f2, s2) =>
          match read_comma_field s2 with
          | Some (f3, s3) =>
              match read_comma_field s3 with
              | Some (f4, s4) =>
                  match read_comma_field s4 with
                  | Some (f5, s5) => Some (mkItem f1 f2 f3 f4 f5, s5)
                  | None => None
                  end
              | None => None
              end
          | None => None
          end
      | None => None
      end
  | None => None
  end.

Fixpoint read_rows (fuel : nat) (s : jsstring)
    : option (list VerificationItem) :=
  match s with
  | [] => Some []
  | c :: s' =>
      match fuel with
      | O => None
      | S fuel' =>
          if (c =? NL)%N then
            match read_row s' with
            | Some (it, r) =>
                match read_rows fuel' r with
                | Some its => Some (it :: its)
                | None => None
                end
            | None => None
            end
          else None
      end
  end.

Definition read_csv (csv : jsstring) : option (list VerificationItem) :=
  if startsWith csv header_row
  then read_rows (List.length csv) (skipn (List.length header_row) csv)
  else None.

(** What may follow a quoted field: nothing, or a unit that is not a
    double quote. *)
Definition not_quote_first (rest : jsstring) : Prop :=
  match rest with
  | [] => True
  | c :: _ => c <> DQ
  end.

(** What [escape] accepts: a falsy value, or a string. *)
Definition exportable_value (v : jsval) : bool :=
  negb (truthy v) || match v with Some (JString _) => true | _ => false end.

Definition string_of (v : jsval) : jsstring :=
  match v with
  | Some (JString s) => s
  | _ => []
  end.

Definition item_keys : list jsstring :=
  [k_location; k_quote_text; k_claimed_source; k_status; k_notes].

Definition field_value (r : json) (k : jsstring) : jsval :=
  match get_prop r k with
  | Ok v => v
  | Throw _ => None
  end.

Definition exportableb (r : json) : bool :=
  match r with
  | JNull => false
  | _ => forallb (fun k => exportable_value (field_value r k)) item_keys
  end.

(** The event that closes the log of a loop left by a call that threw:
    the call on that chunk. *)
Definition last_call (exit : loop_exit) (content : jsstring) : list event :=
  match loop_caught exit with
  | None => []
  | Some _ => [EvVerify content]
  end.

(** A string without opening bracket. *)
Definition bracket_free (s : jsstring) : Prop :=
  Forall (fun c => c <> LBRACKET) s.

(** What the pages from number [i] on add to the text. *)
Fixpoint page_blocks (i : N) (pages : list (list jsstring)) : jsstring :=
  match pages with
  | [] => []
  | strs :: rest => page_block i strs ++ page_blocks (i + 1) rest
  end.

(** * Properties *)

(** ** Lists, [slice] and [lastIndexOf] *)

Lemma len_nonneg {A} (s : list A) : 0 <= len s.
Proof. unfold len; lia. Qed.

Lemma len_app {A} (a b : list A) : len (a ++ b) = len a + len b.
Proof. unfold len; rewrite length_app; lia. Qed.

Lemma len_cons {A} (x : A) (s : list A) : len (x :: s) = len s + 1.
Proof. unfold len; simpl; lia. Qed.

Lemma jsstring_eqb_eq (a b : jsstring) : jsstring_eqb a b = true <-> a = b.
Proof.
  revert b; induction a as [|x a IH]; intros [|y b]; simpl;
    try (split; intro H; congruence).
  rewrite andb_true_iff, N.eqb_eq, IH. split.
  - intros [-> ->]; reflexivity.
  - intros H; inversion H; auto.
Qed.

Lemma slice_in_range {A} (s : list A) (a b : Z) :
  0 <= a <= b -> b <= len s ->
  slice s a b = firstn (Z.to_nat (b - a)) (skipn (Z.to_nat a) s).
Proof.
  intros Ha Hb. unfold slice, clamp_index.
  destruct (Z.ltb_spec a 0); [lia|].
  destruct (Z.ltb_spec b 0); [lia|].
  rewrite !Z.min_l by lia. reflexivity.
Qed.

Lemma len_slice {A} (s : list A) (a b : Z) :
  0 <= a <= b -> b <= len s -> len (slice s a b) = b - a.
Proof.
  intros Ha Hb. rewrite slice_in_range by assumption.
  unfold len in *. rewrite length_firstn, length_skipn. lia.
Qed.

Lemma skipn_slice {A} (s : list A) (a b : Z) :
  0 <= a <= b -> b <= len s ->
  skipn (Z.to_nat a) s = slice s a b ++ skipn (Z.to_nat b) s.
Proof.
  intros Ha Hb. rewrite slice_in_range by assumption.
  replace (Z.to_nat b) with (Z.to_nat (b - a) + Z.to_nat a)%nat by lia.
  rewrite <- skipn_skipn. symmetry. apply firstn_skipn.
Qed.

Lemma last_index_spec (c : N) (n : nat) :
  forall (s : jsstring) (k : Z), 0 <= k ->
    (last_index c s k n = -1
     \/ (k <= last_index c s k n < k + Z.of_nat n
         /\ nth_error s (Z.to_nat (last_index c s k n - k)) = Some c))
    /\ (forall j, (j < n)%nat -> nth_error s j = Some c ->
                  k + Z.of_nat j <= last_index c s k n).
Proof.
  induction n as [|n IH]; intros s k Hk.
  - simpl. split; [left; reflexivity | intros j Hj; lia].
  - destruct s as [|x s].
    + simpl. split; [left; reflexivity|].
      intros j _ Hj. destruct j; discriminate.
    + cbn [last_index].
      destruct (IH s (k + 1) ltac:(lia)) as [Hr Hmax].
      set (later := last_index c s (k + 1) n) in *.
      destruct (Z.ltb_spec later 0) as [Hneg|Hpos].
      * assert (Hlater : later = -1) by (destruct Hr as [?|[? _]]; lia).
        destruct (N.eqb_spec x c) as [->|Hxc].
        -- split.
           ++ right. split; [lia|]. replace (k - k) with 0 by lia.
              reflexivity.
           ++ intros [|j] Hj Hnth; [lia|].
              specialize (Hmax j ltac:(lia) Hnth). lia.
        -- split; [left; reflexivity|].
           intros [|j] Hj Hnth.
           ++ simpl in Hnth. congruence.
           ++ specialize (Hmax j ltac:(lia) Hnth). lia.
      * destruct Hr as [Hr|[Hrange Hhit]]; [lia|].
        split.
        -- right. split; [lia|].
           replace (Z.to_nat (later - k)) with (S (Z.to_nat (later - (k + 1))))
             by lia.
           exact Hhit.
        -- intros [|j] Hj Hnth; [lia|].
           specialize (Hmax j ltac:(lia) Hnth). lia.
Qed.

Lemma charAt_nth (s : jsstring) (j : Z) :
  0 <= j -> charAt s j = nth_error s (Z.to_nat j).
Proof.
  intros Hj. unfold charAt. destruct (Z.ltb_spec j 0); [lia|reflexivity].
Qed.

Lemma charAt_Some_lt (s : jsstring) (j : Z) (c : N) :
  charAt s j = Some c -> 0 <= j < len s.
Proof.
  unfold charAt. destruct (Z.ltb_spec j 0); [discriminate|].
  intros Hc. assert (Hn : nth_error s (Z.to_nat j) <> None) by congruence.
  apply nth_error_Some in Hn. unfold len. lia.
Qed.

(** [lastIndexOf] from a position inside the string: the answer is the
    greatest position not after [from] that holds [c], or [-1]. *)
Lemma lastIndexOf_spec (s : jsstring) (c : N) (from : Z) :
  0 <= from < len s ->
  (lastIndexOf s c from = -1
   \/ (0 <= lastIndexOf s c from <= from
       /\ charAt s (lastIndexOf s c from) = Some c))
  /\ (forall j, 0 <= j <= from -> charAt s j = Some c ->
                j <= lastIndexOf s c from).
Proof.
  intros Hfrom. unfold lastIndexOf.
  rewrite Z.max_l, Z.min_l by lia.
  destruct (Z.ltb_spec from 0); [lia|].
  destruct (last_index_spec c (S (Z.to_nat from)) s 0 ltac:(lia))
    as [Hr Hmax].
  set (r := last_index c s 0 (S (Z.to_nat from))) in *.
  split.
  - destruct Hr as [Hr|[Hrange Hhit]]; [left; exact Hr|right].
    split; [lia|]. rewrite charAt_nth by lia.
    rewrite Z.sub_0_r in Hhit. exact Hhit.
  - intros j Hj Hc. rewrite charAt_nth in Hc by lia.
    specialize (Hmax (Z.to_nat j) ltac:(lia) Hc). lia.
Qed.

(** ** Segmenter *)

Lemma texts_app (a b : list Chunk) : texts (a ++ b) = texts a ++ texts b.
Proof. unfold texts. apply flat_map_app. Qed.

Lemma firstn_S_nth {A} (l : list A) (k : nat) (x : A) :
  nth_error l k = Some x -> firstn (S k) l = firstn k l ++ [x].
Proof.
  revert k; induction l as [|y l IH]; intros [|k] H; try discriminate.
  - simpl in H. injection H as ->. reflexivity.
  - simpl in H. change (y :: firstn (S k) l = y :: firstn k l ++ [x]).
    f_equal. exact (IH k H).
Qed.

Lemma texts_prefix_mono (cs : list Chunk) (j k : nat) :
  (j <= k)%nat -> len (texts (firstn j cs)) <= len (texts (firstn k cs)).
Proof.
  intros Hjk.
  rewrite <- (firstn_skipn j (firstn k cs)), firstn_firstn, texts_app, len_app.
  rewrite Nat.min_l by lia.
  pose proof (len_nonneg (texts (skipn j (firstn k cs)))). lia.
Qed.

(** More fuel does not change the answer of a loop that has returned. *)
Lemma createChunks_loop_more_fuel (fuel : nat) :
  forall (T : jsstring) (size i : Z) (acc r : list Chunk) (fuel' : nat),
    createChunks_loop fuel T size i acc = Some r -> (fuel <= fuel')%nat ->
    createChunks_loop fuel' T size i acc = Some r.
Proof.
  induction fuel as [|fuel IH]; intros T size i acc r fuel' Hrun Hle.
  - discriminate.
  - destruct fuel' as [|fuel']; [lia|].
    cbn [createChunks_loop] in *.
    destruct (i <? len T); [|exact Hrun].
    apply (IH _ _ _ _ _ fuel' Hrun). lia.
Qed.

(** With size 0 the cursor never moves: the loop of the source does not
    return on a non-empty text, and the embedding runs out of any fuel. *)
Lemma createChunks_zero_size_diverges (T : jsstring) (fuel : nat) :
  T <> [] -> createChunks_fuel fuel T 0 = None.
Proof.
  intros HT. unfold createChunks_fuel. generalize (@nil Chunk) as acc.
  assert (Hlen : 0 < len T) by (destruct T; [congruence|rewrite len_cons;
                                  pose proof (len_nonneg T); lia]).
  assert (Hend : chunk_end T 0 0 = 0).
  { unfold chunk_end. rewrite Z.min_l by lia.
    destruct (Z.ltb_spec (0 + 0) (len T)); [|lia].
    destruct (lastIndexOf_spec T NL (0 + 0) ltac:(lia)) as [Hr _].
    destruct (Z.gtb_spec (10 * lastIndexOf T NL (0 + 0)) (10 * 0 + 9 * 0));
      lia. }
  induction fuel as [|fuel IH]; intros acc; [reflexivity|].
  cbn [createChunks_loop]. destruct (Z.ltb_spec 0 (len T)); [|lia].
  rewrite Hend. apply IH.
Qed.

Section Segmenter.

Variable T : jsstring.
Variable size : Z.
Hypothesis size_pos : 0 < size.

(** One iteration moves the cursor forward, by [size] at most, and not
    beyond the end of the text. *)
Lemma chunk_end_bounds (i : Z) :
  0 <= i < len T ->
  i < chunk_end T size i <= len T /\ chunk_end T size i <= i + size.
Proof.
  intros Hi. unfold chunk_end.
  destruct (Z.ltb_spec (Z.min (i + size) (len T)) (len T)) as [Hlt|Hge];
    [|lia].
  assert (He : Z.min (i + size) (len T) = i + size) by lia.
  rewrite He in *.
  destruct (lastIndexOf_spec T NL (i + size) ltac:(lia)) as [Hr _].
  destruct (Z.gtb_spec (10 * lastIndexOf T NL (i + size)) (10 * i + 9 * size));
    lia.
Qed.

(** The loop invariant: what is appended from cursor [i] on is a chain of
    slices that starts at [i], and the loop returns as soon as the fuel
    exceeds the distance to the end of the text. *)
Lemma createChunks_loop_spec (fuel : nat) :
  forall (i : Z) (acc : list Chunk),
    0 <= i <= len T -> len T - i < Z.of_nat fuel ->
    exists out,
      createChunks_loop fuel T size i acc = Some (acc ++ out)
      /\ chained T i out
      /\ Forall (fun c => len (text c) <= size) out.
Proof.
  induction fuel as [|fuel IH]; intros i acc Hi Hfuel.
  - lia.
  - cbn [createChunks_loop].
    destruct (Z.ltb_spec i (len T)) as [Hlt|Hge].
    + destruct (chunk_end_bounds i ltac:(lia)) as [Hb Hs].
      set (e := chunk_end T size i) in *.
      destruct (IH e (acc ++ [mkChunk (slice T i e) i])
                  ltac:(lia) ltac:(lia)) as (out & Hrun & Hch & Hall).
      assert (Hlen : len (slice T i e) = e - i)
        by (apply len_slice; lia).
      exists (mkChunk (slice T i e) i :: out). split; [|split].
      * rewrite Hrun, <- app_assoc. reflexivity.
      * simpl. rewrite Hlen. replace (i + (e - i)) with e by lia.
        repeat split; try lia. exact Hch.
      * constructor; [simpl; lia | exact Hall].
    + exists []. rewrite app_nil_r. repeat split; [simpl; lia | constructor].
Qed.

Lemma createChunks_chained :
  exists chunks,
    createChunks T size = Some chunks
    /\ chained T 0 chunks
    /\ Forall (fun c => len (text c) <= size) chunks.
Proof.
  unfold createChunks, createChunks_fuel.
  pose proof (len_nonneg T) as HT.
  destruct (createChunks_loop_spec (S (List.length T)) 0 []
              ltac:(lia) ltac:(unfold len; lia)) as (out & Hrun & Hch & Hall).
  exists out. auto.
Qed.

(** What a chain of slices says about the chunks one by one. *)
Lemma chained_texts (cs : list Chunk) :
  forall i, 0 <= i -> chained T i cs -> texts cs = skipn (Z.to_nat i) T.
Proof.
  induction cs as [|c cs IH]; intros i Hi Hch; simpl in *.
  - subst i. unfold len. rewrite Nat2Z.id, skipn_all. reflexivity.
  - destruct Hch as (_ & Htext & Hpos & Hle & Hch).
    rewrite (IH (i + len (text c)) ltac:(lia) Hch).
    rewrite (skipn_slice T i (i + len (text c))) by lia.
    rewrite <- Htext. reflexivity.
Qed.

Lemma chained_nth (cs : list Chunk) :
  forall i k c, chained T i cs -> nth_error cs k = Some c ->
    startIndex c = i + len (texts (firstn k cs))
    /\ text c = slice T (startIndex c) (startIndex c + len (text c))
    /\ 0 < len (text c).
Proof.
  induction cs as [|c0 cs IH]; intros i k c Hch Hk.
  - destruct k; discriminate.
  - simpl in Hch. destruct Hch as (Hstart & Htext & Hpos & Hle & Hch).
    destruct k as [|k].
    + simpl in Hk. injection Hk as <-. simpl.
      rewrite Hstart. unfold len at 1. simpl. repeat split; try lia.
      exact Htext.
    + simpl in Hk. destruct (IH _ k c Hch Hk) as (Hs & Ht & Hp).
      repeat split; try assumption.
      rewrite Hs. cbn [firstn]. change (texts (c0 :: firstn k cs))
        with (text c0 ++ texts (firstn k cs)).
      rewrite len_app. lia.
Qed.

End Segmenter.

(** C1. Chunk coverage: for a positive size the segmenter returns chunks
    whose texts, concatenated in order, are the text itself; the start
    index of a chunk is the total length of the chunks before it, and the
    chunk is the slice of the text at that index; hence consecutive chunks
    touch, no two chunks overlap, and start indices increase strictly. *)
Theorem createChunks_reconstructs_text (T : jsstring) (size : Z) :
  0 < size ->
  exists chunks,
    createChunks T size = Some chunks
    /\ texts chunks = T
    /\ (forall k c, nth_error chunks k = Some c ->
          startIndex c = len (texts (firstn k chunks))
          /\ text c = slice T (startIndex c) (startIndex c + len (text c)))
    /\ (forall k c c', nth_error chunks k = Some c ->
          nth_error chunks (S k) = Some c' ->
          startIndex c' = startIndex c + len (text c))
    /\ (forall j k cj ck, (j < k)%nat ->
          nth_error chunks j = Some cj -> nth_error chunks k = Some ck ->
          startIndex cj + len (text cj) <= startIndex ck
          /\ startIndex cj < startIndex ck).
Proof.
  intros Hsize.
  destruct (createChunks_chained T size Hsize) as (chunks & Hrun & Hch & _).
  exists chunks. split; [exact Hrun|].
  assert (Hstart : forall k c, nth_error chunks k = Some c ->
            startIndex c = len (texts (firstn k chunks))
            /\ text c = slice T (startIndex c) (startIndex c + len (text c))
            /\ 0 < len (text c)).
  { intros k c Hk. destruct (chained_nth T chunks 0 k c Hch Hk)
      as (Hs & Ht & Hp). rewrite Z.add_0_l in Hs. auto. }
  assert (Hnext : forall k c, nth_error chunks k = Some c ->
            len (texts (firstn (S k) chunks)) = startIndex c + len (text c)).
  { intros k c Hk. rewrite (firstn_S_nth _ _ _ Hk), texts_app, len_app.
    destruct (Hstart k c Hk) as (-> & _). unfold texts at 2. simpl.
    rewrite app_nil_r. reflexivity. }
  split; [|split; [|split]].
  - rewrite (chained_texts T chunks 0 ltac:(lia) Hch). reflexivity.
  - intros k c Hk. destruct (Hstart k c Hk) as (Hs & Ht & _). auto.
  - intros k c c' Hk Hk'. destruct (Hstart (S k) c' Hk') as (-> & _).
    apply Hnext, Hk.
  - intros j k cj ck Hjk Hj Hk.
    destruct (Hstart j cj Hj) as (Hsj & _ & Hpj).
    destruct (Hstart k ck Hk) as (Hsk & _).
    pose proof (Hnext j cj Hj) as Hn.
    pose proof (texts_prefix_mono chunks (S j) k ltac:(lia)). lia.
Qed.

Lemma createChunks_reconstructs_text_witness :
  0 < 10
  /\ exists chunks,
       createChunks sample_text 10 = Some chunks /\ texts chunks = sample_text.
Proof.
  split; [lia|].
  destruct (createChunks_reconstructs_text sample_text 10 ltac:(lia))
    as (chunks & Hrun & Htexts & _).
  exists chunks. split; assumption.
Defined.

(** C7. Chunk bound: for a positive size the segmenter returns chunks none
    of which is longer than the size. *)
Theorem createChunks_chunk_bound (T : jsstring) (size : Z) :
  0 < size ->
  exists chunks,
    createChunks T size = Some chunks
    /\ Forall (fun c => len (text c) <= size) chunks.
Proof.
  intros Hsize.
  destruct (createChunks_chained T size Hsize) as (chunks & Hrun & _ & Hall).
  exists chunks. split; assumption.
Qed.

Lemma createChunks_chunk_bound_witness :
  0 < 10
  /\ exists chunks,
       createChunks sample_text 10 = Some chunks
       /\ Forall (fun c => len (text c) <= 10) chunks.
Proof.
  split; [lia|]. apply (createChunks_chunk_bound sample_text 10). lia.
Defined.

(** C10. Termination: for a size of at least 1, each iteration that starts
    at a cursor inside the text chooses an end strictly after the cursor
    and not after the end of the text (the hard candidate is already past
    the cursor, and the end differs from it only when it lies strictly
    after cursor + 0.9 * size); so the loop returns, with the same chunks
    for every amount of fuel above the length of the text. *)
Theorem createChunks_terminates (T : jsstring) (size : Z) :
  1 <= size ->
  (forall i, 0 <= i < len T ->
     i < Z.min (i + size) (len T)
     /\ (chunk_end T size i = Z.min (i + size) (len T)
         \/ 10 * i + 9 * size < 10 * chunk_end T size i)
     /\ i < chunk_end T size i <= len T)
  /\ exists chunks,
       createChunks T size = Some chunks
       /\ forall fuel, (List.length T < fuel)%nat ->
            createChunks_fuel fuel T size = Some chunks.
Proof.
  intros Hsize. split.
  - intros i Hi. split; [lia|]. split.
    + unfold chunk_end.
      destruct (Z.min (i + size) (len T) <? len T); [|left; reflexivity].
      destruct (Z.gtb_spec (10 * lastIndexOf T NL (Z.min (i + size) (len T)))
                  (10 * i + 9 * size)); [right; lia|left; reflexivity].
    + apply chunk_end_bounds; lia.
  - destruct (createChunks_chained T size ltac:(lia)) as (chunks & Hrun & _).
    exists chunks. split; [exact Hrun|].
    intros fuel Hfuel. unfold createChunks_fuel.
    apply (createChunks_loop_more_fuel (S (List.length T))); [exact Hrun|lia].
Qed.

Lemma createChunks_terminates_witness :
  1 <= 10
  /\ exists chunks,
       createChunks sample_text 10 = Some chunks
       /\ forall fuel, (List.length sample_text < fuel)%nat ->
            createChunks_fuel fuel sample_text 10 = Some chunks.
Proof.
  split; [lia|].
  exact (proj2 (createChunks_terminates sample_text 10 ltac:(lia))).
Defined.

(** C6 (as amended). Cut rule: when the hard boundary cursor + size lies
    strictly before the end of the text, the chunk ends at the nearest line
    feed found backward from the hard boundary if that line feed lies
    strictly after cursor + 0.9 * size, and at the hard boundary if no line
    feed lies strictly after cursor + 0.9 * size and not after the hard
    boundary. *)
Theorem chunk_end_cut_rule (T : jsstring) (size i : Z) :
  0 < size -> 0 <= i -> i + size < len T ->
  (forall j,
     10 * i + 9 * size < 10 * j -> j <= i + size ->
     charAt T j = Some NL ->
     (forall j', j < j' <= i + size -> charAt T j' <> Some NL) ->
     chunk_end T size i = j)
  /\ ((forall j, 10 * i + 9 * size < 10 * j -> j <= i + size ->
                 charAt T j <> Some NL) ->
      chunk_end T size i = i + size).
Proof.
  intros Hsize Hi Hend. unfold chunk_end.
  rewrite Z.min_l by lia.
  destruct (Z.ltb_spec (i + size) (len T)) as [_|]; [|lia].
  destruct (lastIndexOf_spec T NL (i + size) ltac:(lia)) as [Hr Hmax].
  set (r := lastIndexOf T NL (i + size)) in *.
  split.
  - intros j Hj Hle Hnl Hnone.
    pose proof (Hmax j ltac:(lia) Hnl) as Hjr.
    destruct Hr as [Hr|[Hrange Hhit]]; [lia|].
    assert (r = j).
    { destruct (Z.eq_dec r j) as [|Hne]; [assumption|].
      exfalso. apply (Hnone r); [lia|exact Hhit]. }
    subst j. destruct (Z.gtb_spec (10 * r) (10 * i + 9 * size)); [reflexivity|lia].
  - intros Hnone.
    destruct (Z.gtb_spec (10 * r) (10 * i + 9 * size)) as [Hgt|]; [|reflexivity].
    destruct Hr as [Hr|[Hrange Hhit]]; [lia|].
    exfalso. apply (Hnone r); [lia|lia|exact Hhit].
Qed.

Lemma chunk_end_cut_rule_witness :
  0 < 11 /\ 0 <= 0 /\ 0 + 11 < len sample_text_late_break
  /\ chunk_end sample_text_late_break 11 0 = 10.
Proof.
  split; [lia|]. split; [lia|]. split; [vm_compute; reflexivity|].
  apply (proj1 (chunk_end_cut_rule sample_text_late_break 11 0
                  ltac:(lia) ltac:(lia) ltac:(vm_compute; reflexivity))).
  - lia.
  - lia.
  - reflexivity.
  - intros j' Hj'. assert (j' = 11) by lia. subst j'.
    vm_compute. discriminate.
Defined.

(** C6 as stated fails on the boundary: with size 10 and a line feed at
    position 9 = 0 + 0.9 * 10, the only one up to the hard boundary 10, the
    chunk that starts at 0 ends at 10, not at the line feed. *)
Lemma chunk_end_boundary_counterexample :
  ~ (forall (T : jsstring) (size i j : Z),
       0 < size -> 0 <= i -> i + size < len T ->
       10 * i + 9 * size <= 10 * j -> j <= i + size ->
       charAt T j = Some NL ->
       (forall j', j < j' <= i + size -> charAt T j' <> Some NL) ->
       chunk_end T size i = j).
Proof.
  intros H.
  assert (Hcut : chunk_end sample_text 10 0 = 9).
  { apply H.
    - lia.
    - lia.
    - vm_compute. reflexivity.
    - lia.
    - lia.
    - reflexivity.
    - intros j' Hj'. assert (j' = 10) by lia. subst j'.
      vm_compute. discriminate. }
  vm_compute in Hcut. discriminate.
Qed.

(** ** Aggregator *)

(** Comparisons of string literals are settled by evaluation. *)
Ltac eval_eqb :=
  repeat match goal with
         | |- context [jsstring_eqb ?a ?b] =>
             let v := eval vm_compute in (jsstring_eqb a b) in
             change (jsstring_eqb a b) with v
         end.

Lemma count_status_cons (lit : jsstring) (r : json) (rs : list json) :
  count_status lit (r :: rs)
  = (if has_status lit r then 1 else 0) + count_status lit rs.
Proof.
  unfold count_status. simpl. destruct (has_status lit r).
  - rewrite len_cons. lia.
  - lia.
Qed.

Lemma forEach_stats_step (rs : list json) :
  forall s0, Forall enum_status rs ->
    exists s,
      forEach stats_step rs s0 = Ok s
      /\ total s = total s0
      /\ accurate s = accurate s0 + count_status ACCURATE rs
      /\ paraphrased s = paraphrased s0 + count_status PARAPHRASED rs
      /\ misattributed s = misattributed s0 + count_status MISATTRIBUTED rs
      /\ unverifiable s = unverifiable s0 + count_status UNVERIFIABLE rs
      /\ accurate s + paraphrased s + misattributed s + unverifiable s
         = accurate s0 + paraphrased s0 + misattributed s0 + unverifiable s0
           + len rs.
Proof.
  induction rs as [|r rs IH]; intros s0 Hall.
  - exists s0. unfold count_status, len. simpl. repeat split; lia.
  - inversion Hall as [|? ? (st & Hin & Hget) Hrest]; subst.
    cbn [forEach]. unfold stats_step at 1. rewrite Hget. cbn [bind].
    rewrite !count_status_cons, len_cons. unfold has_status. rewrite Hget.
    simpl in Hin.
    destruct Hin as [<-|[<-|[<-|[<-|[]]]]];
      cbn [strict_eq_string]; eval_eqb; cbv beta iota;
      match goal with
      | |- context [forEach stats_step rs ?s1] =>
          destruct (IH s1 Hrest) as (s & Hrun & Ht & Ha & Hp & Hm & Hu & Hsum)
      end;
      exists s; (split; [exact Hrun|]);
      cbn [accurate paraphrased misattributed unverifiable total]
        in Ht, Ha, Hp, Hm, Hu, Hsum;
      repeat split; lia.
Qed.

(** C8. Stats invariant: on the empty sequence all five numbers are zero;
    on a sequence of items whose statuses all belong to the enumeration
    the aggregator returns, [total] is the length of the sequence, the
    four counts add up to [total], and each count is the number of items
    of the sequence that carry that status. *)
Theorem stats_invariant :
  stats [] = Ok (mkStats 0 0 0 0 0)
  /\ forall rs : list json,
       Forall enum_status rs ->
       exists s,
         stats rs = Ok s
         /\ total s = len rs
         /\ accurate s + paraphrased s + misattributed s + unverifiable s
            = total s
         /\ accurate s = count_status ACCURATE rs
         /\ paraphrased s = count_status PARAPHRASED rs
         /\ misattributed s = count_status MISATTRIBUTED rs
         /\ unverifiable s = count_status UNVERIFIABLE rs.
Proof.
  split; [reflexivity|].
  intros rs Hall. unfold stats.
  destruct (forEach_stats_step rs (mkStats 0 0 0 0 (len rs)) Hall)
    as (s & Hrun & Ht & Ha & Hp & Hm & Hu & Hsum).
  exists s. cbn [accurate paraphrased misattributed unverifiable total] in *.
  repeat split; try assumption; lia.
Qed.

Lemma item_json_enum_status (it : VerificationItem) :
  In (status it) CheckStatus -> enum_status (item_json it).
Proof.
  intros Hin. exists (status it). split; [exact Hin|reflexivity].
Qed.

Lemma stats_invariant_witness :
  Forall enum_status [item_json sample_item; item_json sample_item_2]
  /\ exists s,
       stats [item_json sample_item; item_json sample_item_2] = Ok s
       /\ total s = 2
       /\ accurate s + paraphrased s + misattributed s + unverifiable s
          = total s.
Proof.
  assert (H : Forall enum_status
                [item_json sample_item; item_json sample_item_2]).
  { repeat constructor; apply item_json_enum_status; simpl; tauto. }
  split; [exact H|].
  destruct (proj2 stats_invariant _ H) as (s & Hrun & Ht & Hsum & _).
  exists s. repeat split; assumption.
Defined.

(** ** Exporter *)

Lemma replace_all_double_quotes (s : jsstring) :
  replace_all DQ [DQ; DQ] s = double_quotes s.
Proof.
  unfold replace_all. induction s as [|c s IH]; [reflexivity|].
  cbn [flat_map double_quotes]. rewrite IH.
  destruct (c =? DQ)%N; reflexivity.
Qed.

Lemma escape_string (s : jsstring) :
  escape (Some (JString s)) = Ok (spec_field s).
Proof.
  unfold escape, spec_field. rewrite <- replace_all_double_quotes.
  destruct s; reflexivity.
Qed.

Lemma csv_row_item (it : VerificationItem) :
  csv_row (item_json it) = Ok (spec_row it).
Proof.
  unfold csv_row, item_json, get_prop.
  repeat match goal with
         | |- context [lookup_last ?k ?fs] =>
             let v := eval cbn in (lookup_last k fs) in
             change (lookup_last k fs) with v
         end.
  cbn [bind]. rewrite !escape_string. cbn [bind].
  unfold spec_row. cbn [join]. reflexivity.
Qed.

Lemma mapM_csv_row (its : list VerificationItem) :
  mapM csv_row (map item_json its) = Ok (map spec_row its).
Proof.
  induction its as [|it its IH]; [reflexivity|].
  cbn [map mapM]. rewrite csv_row_item. cbn [bind]. rewrite IH. reflexivity.
Qed.

Lemma join_lines (h : jsstring) (rows : list jsstring) :
  join [NL] (h :: rows) = h ++ flat_map (fun r => NL :: r) rows.
Proof.
  revert h; induction rows as [|r rows IH]; intros h.
  - simpl. rewrite app_nil_r. reflexivity.
  - change (join [NL] (h :: r :: rows)) with (h ++ [NL] ++ join [NL] (r :: rows)).
    rewrite IH. reflexivity.
Qed.

(** C9 (as amended). CSV export: nothing is exported for an empty result
    set; for items with string fields the exported text is the header
    line [Location,Quote,Claimed Source,Status,Notes], which is not the
    row of the column names, followed, for each item in order, by a line
    feed and the five fields location, quote_text, claimed_source, status,
    notes separated by commas, each field between double quotes with
    every double quote inside it doubled and every other unit unchanged:
    the text of the specification with another header row.  The notes of
    the specification's example, in which the word stop stands between
    double quotes, give the field in which those two double quotes are
    doubled ([he_said_stop_field]). *)
Theorem handleExportCSV_format :
  handleExportCSV [] = Ok None
  /\ (forall its : list VerificationItem,
        handleExportCSV (map item_json its) = Ok (csv_lines header_row its))
  /\ (forall (its : list VerificationItem) (rows : jsstring),
        spec_toCsv its = Some (spec_header ++ rows) ->
        handleExportCSV (map item_json its) = Ok (Some (header_row ++ rows)))
  /\ escape (Some (JString he_said_stop)) = Ok he_said_stop_field
  /\ (forall it, notes it = he_said_stop ->
        exists fields,
          csv_row (item_json it)
          = Ok (fields ++ COMMA ++ he_said_stop_field)).
Proof.
  assert (Hexport : forall its : list VerificationItem,
            handleExportCSV (map item_json its)
            = Ok (csv_lines header_row its)).
  { intros [|it its]; [reflexivity|].
    unfold handleExportCSV. cbn [map]. rewrite <- (map_cons item_json).
    rewrite mapM_csv_row. cbn [bind]. unfold csv_lines.
    rewrite join_lines, flat_map_concat_map, map_map,
      <- flat_map_concat_map.
    reflexivity. }
  split; [reflexivity|]. split; [exact Hexport|]. split; [|split].
  - intros its rows Hspec. rewrite Hexport.
    destruct its as [|it its]; [discriminate|].
    unfold spec_toCsv, csv_lines in *.
    assert (E : spec_header
                ++ flat_map (fun x => NL :: spec_row x) (it :: its)
                = spec_header ++ rows) by congruence.
    apply app_inv_head in E. rewrite <- E. reflexivity.
  - reflexivity.
  - intros it Hnotes. rewrite csv_row_item. unfold spec_row.
    rewrite Hnotes.
    exists (spec_field (location it) ++ COMMA ++ spec_field (quote_text it)
            ++ COMMA ++ spec_field (claimed_source it) ++ COMMA
            ++ spec_field (status it)).
    rewrite <- !app_assoc. reflexivity.
Qed.

Lemma handleExportCSV_format_witness :
  notes sample_item = he_said_stop
  /\ (exists fields,
        csv_row (item_json sample_item)
        = Ok (fields ++ COMMA ++ he_said_stop_field))
  /\ spec_toCsv [sample_item]
     = Some (spec_header ++ NL :: spec_row sample_item)
  /\ handleExportCSV (map item_json [sample_item])
     = Ok (Some (header_row ++ NL :: spec_row sample_item)).
Proof.
  split; [reflexivity|]. split; [|split].
  - exact (proj2 (proj2 (proj2 (proj2 handleExportCSV_format))) sample_item
             eq_refl).
  - reflexivity.
  - exact (proj1 (proj2 (proj2 handleExportCSV_format)) [sample_item]
             (NL :: spec_row sample_item) eq_refl).
Defined.

(** C9 as stated fails on the header row: the export of one item does not
    begin with the row of the column names location, quote_text,
    claimed_source, status, notes, whether the names are read bare or
    between double quotes; its first line is
    [Location,Quote,Claimed Source,Status,Notes]. *)
Lemma handleExportCSV_header_counterexample :
  ~ (forall its : list VerificationItem,
       handleExportCSV (map item_json its) = Ok (spec_toCsv its))
  /\ ~ (forall its : list VerificationItem,
          handleExportCSV (map item_json its)
          = Ok (csv_lines spec_header_quoted its))
  /\ exists rows,
       handleExportCSV (map item_json [sample_item])
       = Ok (Some (of_string "Location,Quote,Claimed Source,Status,Notes"
                   ++ NL :: rows)).
Proof.
  split; [|split].
  - intros H. specialize (H [sample_item]). vm_compute in H. discriminate H.
  - intros H. specialize (H [sample_item]). vm_compute in H. discriminate H.
  - eexists. vm_compute. reflexivity.
Qed.

(** ** Context stitcher *)

Lemma span_digits_spec (s : jsstring) :
  forall ds r, span_digits s = (ds, r) ->
    s = ds ++ r /\ Forall (fun d => is_digit d = true) ds.
Proof.
  induction s as [|c s IH]; intros ds r H; simpl in H.
  - injection H as <- <-. split; [reflexivity|constructor].
  - destruct (is_digit c) eqn:Hc.
    + destruct (span_digits s) as [ds' r'] eqn:Hs.
      injection H as <- <-. destruct (IH ds' r' eq_refl) as [-> Hall].
      split; [reflexivity|constructor; assumption].
    + injection H as <- <-. split; [reflexivity|constructor].
Qed.

Lemma span_digits_app (ds : jsstring) (c : N) (rest : jsstring) :
  Forall (fun d => is_digit d = true) ds -> is_digit c = false ->
  span_digits (ds ++ c :: rest) = (ds, c :: rest).
Proof.
  intros Hall Hc. induction Hall as [|d ds Hd _ IH]; simpl.
  - rewrite Hc. reflexivity.
  - rewrite Hd, IH. reflexivity.
Qed.

Lemma marker_length (ds : jsstring) :
  List.length (LBRACKET :: UPPER_P :: ds ++ [RBRACKET])
  = S (S (S (List.length ds))).
Proof. simpl. rewrite length_app. simpl. lia. Qed.

Lemma firstn_app_exact {A} (a b : list A) :
  firstn (List.length a) (a ++ b) = a.
Proof.
  rewrite firstn_app, Nat.sub_diag, firstn_all. simpl. apply app_nil_r.
Qed.

(** A match at the start of [s] is a marker that occurs at position 0. *)
Lemma match_marker_sound (s m : jsstring) :
  match_marker s = Some m -> is_marker m /\ occurs_at m s 0.
Proof.
  unfold match_marker, occurs_at.
  destruct s as [|c1 [|c2 r]]; try discriminate.
  destruct (N.eqb_spec c1 LBRACKET) as [->|]; [|discriminate].
  destruct (N.eqb_spec c2 UPPER_P) as [->|]; [|discriminate].
  cbn [andb]. destruct (span_digits r) as [ds r'] eqn:Hspan.
  destruct (span_digits_spec r ds r' Hspan) as [-> Hall].
  destruct ds as [|d ds]; [discriminate|].
  destruct r' as [|c3 r']; [discriminate|].
  destruct (N.eqb_spec c3 RBRACKET) as [->|]; [|discriminate].
  intros H; injection H as <-. split.
  - exists (d :: ds). repeat split; [discriminate|assumption].
  - cbn [skipn].
    change (LBRACKET :: UPPER_P :: (d :: ds) ++ RBRACKET :: r')
      with ([LBRACKET; UPPER_P] ++ (d :: ds) ++ [RBRACKET] ++ r').
    change (LBRACKET :: UPPER_P :: (d :: ds) ++ [RBRACKET])
      with ([LBRACKET; UPPER_P] ++ (d :: ds) ++ [RBRACKET]).
    rewrite !app_assoc. rewrite <- (app_assoc _ [RBRACKET] r').
    rewrite app_assoc. apply firstn_app_exact.
Qed.

(** A marker that occurs at position 0 is the match at the start. *)
Lemma match_marker_complete (s m : jsstring) :
  is_marker m -> occurs_at m s 0 -> match_marker s = Some m.
Proof.
  intros (ds & Hne & Hall & ->) Hocc. unfold occurs_at in Hocc.
  cbn [skipn] in Hocc.
  rewrite <- (firstn_skipn
                (List.length (LBRACKET :: UPPER_P :: ds ++ [RBRACKET])) s).
  rewrite Hocc.
  set (rest := skipn _ s). clearbody rest. clear Hocc.
  change ((LBRACKET :: UPPER_P :: ds ++ [RBRACKET]) ++ rest)
    with (LBRACKET :: UPPER_P :: (ds ++ [RBRACKET]) ++ rest).
  rewrite <- app_assoc. cbn [app].
  unfold match_marker. rewrite !N.eqb_refl. cbn [andb].
  rewrite span_digits_app by (assumption || reflexivity).
  destruct ds as [|d ds]; [congruence|]. rewrite N.eqb_refl. reflexivity.
Qed.

Lemma match_marker_needs_bracket (c : N) (s : jsstring) :
  c <> LBRACKET -> match_marker (c :: s) = None.
Proof.
  intros Hc. unfold match_marker. destruct s; [reflexivity|].
  destruct (N.eqb_spec c LBRACKET); [contradiction|reflexivity].
Qed.

Lemma all_markers_skip_prefix (pre rest : jsstring) :
  Forall (fun c => c <> LBRACKET) pre ->
  all_markers (pre ++ rest) = all_markers rest.
Proof.
  intros Hall. induction Hall as [|c pre Hc _ IH]; [reflexivity|].
  cbn [app all_markers]. rewrite match_marker_needs_bracket by assumption.
  exact IH.
Qed.

Lemma digit_not_bracket (d : N) : is_digit d = true -> d <> LBRACKET.
Proof.
  unfold is_digit, LBRACKET. intros H ->. discriminate.
Qed.

Lemma occurs_at_0_split (m s : jsstring) :
  occurs_at m s 0 -> exists rest, s = m ++ rest.
Proof.
  unfold occurs_at. cbn [skipn]. intros H.
  exists (skipn (List.length m) s).
  pose proof (firstn_skipn (List.length m) s) as E.
  rewrite H in E. symmetry. exact E.
Qed.

Lemma skipn_app_exact {A} (a b : list A) :
  skipn (List.length a) (a ++ b) = b.
Proof.
  rewrite skipn_app, skipn_all, Nat.sub_diag. reflexivity.
Qed.

(** Markers do not overlap: after a match, the positions inside it hold
    no further match. *)
Lemma all_markers_after_match (x : N) (s m : jsstring) :
  match_marker (x :: s) = Some m ->
  all_markers s = all_markers (skipn (List.length m - 1) s).
Proof.
  intros Hm.
  destruct (match_marker_sound _ _ Hm) as [(ds & _ & Hall & ->) Hocc].
  destruct (occurs_at_0_split _ _ Hocc) as [rest Hs].
  cbn [app] in Hs. injection Hs as _ ->.
  set (pre := UPPER_P :: ds ++ [RBRACKET]).
  assert (Hpre : Forall (fun c => c <> LBRACKET) pre).
  { constructor; [discriminate|]. apply Forall_app. split.
    - eapply Forall_impl; [|exact Hall]. apply digit_not_bracket.
    - constructor; [discriminate|constructor]. }
  change (UPPER_P :: (ds ++ [RBRACKET]) ++ rest) with (pre ++ rest).
  change (List.length (LBRACKET :: pre) - 1)%nat
    with (List.length pre - 0)%nat.
  rewrite Nat.sub_0_r, skipn_app_exact.
  apply all_markers_skip_prefix, Hpre.
Qed.

Lemma matchAll_marker_from_all (s : jsstring) :
  forall skip, matchAll_marker_from skip s = all_markers (skipn skip s).
Proof.
  induction s as [|x s IH]; intros skip.
  - destruct skip; reflexivity.
  - destruct skip as [|k].
    + cbn [matchAll_marker_from skipn all_markers].
      destruct (match_marker (x :: s)) as [m|] eqn:Hm.
      * rewrite IH, <- (all_markers_after_match x s m Hm). reflexivity.
      * rewrite IH. reflexivity.
    + cbn [matchAll_marker_from skipn]. apply IH.
Qed.

Lemma matchAll_marker_all (s : jsstring) :
  matchAll_marker s = all_markers s.
Proof. unfold matchAll_marker. apply matchAll_marker_from_all. Qed.

Lemma marker_nonempty (m : jsstring) : is_marker m -> m <> [].
Proof. intros (ds & _ & _ & ->). discriminate. Qed.

Lemma occurs_at_S (m : jsstring) (x : N) (s : jsstring) (p : nat) :
  occurs_at m (x :: s) (S p) <-> occurs_at m s p.
Proof. unfold occurs_at. cbn [skipn]. reflexivity. Qed.

Lemma all_markers_none (s : jsstring) :
  (forall p m, is_marker m -> ~ occurs_at m s p) -> all_markers s = [].
Proof.
  induction s as [|x s IH]; intros Hnone; [reflexivity|].
  cbn [all_markers].
  destruct (match_marker (x :: s)) as [m|] eqn:Hm.
  - destruct (match_marker_sound _ _ Hm) as [Hmk Hocc].
    exfalso. exact (Hnone 0%nat m Hmk Hocc).
  - apply IH. intros p m Hmk Hocc.
    apply (Hnone (S p) m Hmk). apply occurs_at_S, Hocc.
Qed.

Lemma all_markers_some (s : jsstring) (p : nat) (m : jsstring) :
  is_marker m -> occurs_at m s p -> all_markers s <> [].
Proof.
  revert p; induction s as [|x s IH]; intros p Hmk Hocc.
  - exfalso. apply (marker_nonempty m Hmk).
    unfold occurs_at in Hocc. rewrite skipn_nil, firstn_nil in Hocc.
    congruence.
  - cbn [all_markers]. destruct p as [|p].
    + rewrite (match_marker_complete _ _ Hmk Hocc). discriminate.
    + apply occurs_at_S in Hocc.
      destruct (match_marker (x :: s)); [discriminate|].
      exact (IH p Hmk Hocc).
Qed.

(** The last element of the scan is the marker at the greatest position
    where one occurs. *)
Lemma all_markers_last (s : jsstring) :
  forall p m, is_marker m -> occurs_at m s p ->
    (forall p' m', is_marker m' -> occurs_at m' s p' -> (p' <= p)%nat) ->
    last (all_markers s) [] = m.
Proof.
  induction s as [|x s IH]; intros p m Hmk Hocc Hmax.
  - exfalso. exact (all_markers_some [] p m Hmk Hocc eq_refl).
  - cbn [all_markers]. destruct p as [|p].
    + rewrite (match_marker_complete _ _ Hmk Hocc).
      rewrite all_markers_none; [reflexivity|].
      intros p' m' Hmk' Hocc'.
      apply occurs_at_S with (x := x) in Hocc'.
      specialize (Hmax _ _ Hmk' Hocc'). lia.
    + apply occurs_at_S in Hocc.
      assert (Hlast : last (all_markers s) [] = m).
      { apply (IH p m Hmk Hocc). intros p' m' Hmk' Hocc'.
        apply occurs_at_S with (x := x) in Hocc'.
        specialize (Hmax _ _ Hmk' Hocc'). lia. }
      pose proof (all_markers_some s p m Hmk Hocc) as Hne.
      destruct (match_marker (x :: s)); [|exact Hlast].
      destruct (all_markers s); [congruence|exact Hlast].
Qed.

Lemma len_pos_nonempty {A} (l : list A) : (len l >? 0) = true <-> l <> [].
Proof.
  unfold len. destruct l; simpl; split; intro H; try congruence; try lia.
  reflexivity.
Qed.

Lemma occurrence_starts_with_bracket (m s : jsstring) (p : nat) :
  is_marker m -> occurs_at m s p -> nth_error s p = Some LBRACKET.
Proof.
  intros (ds & _ & _ & ->) Hocc. unfold occurs_at in Hocc.
  rewrite <- (Nat.add_0_r p), <- nth_error_skipn.
  destruct (skipn p s) as [|y r]; [discriminate|].
  cbn [List.length firstn] in Hocc. injection Hocc as -> _. reflexivity.
Qed.

(** C5. Context stitching: chunk number 0 is sent as it is; a later chunk
    is sent as it is when no marker [[P<digits>]] occurs in the text
    before its start index, and otherwise with
    [(Context: Continued from <M>)] and a line feed put in front of it,
    [M] being the marker at the greatest position where one occurs in the
    text before the start index.  For the text [[P1]\nAlpha\n[P2]\nBeta]
    and a chunk number 1 that starts after [[P2]], the marker is [[P2]]. *)
Theorem annotate_rule (T : jsstring) (c : Chunk) :
  annotate T 0 c = text c
  /\ (forall i, 1 <= i ->
        (forall p m, is_marker m ->
                     ~ occurs_at m (slice T 0 (startIndex c)) p) ->
        annotate T i c = text c)
  /\ (forall i p m, 1 <= i ->
        is_marker m -> occurs_at m (slice T 0 (startIndex c)) p ->
        (forall p' m', is_marker m' ->
                       occurs_at m' (slice T 0 (startIndex c)) p' ->
                       (p' <= p)%nat) ->
        annotate T i c
        = of_string "(Context: Continued from " ++ m ++ of_string ")"
          ++ [NL] ++ text c)
  /\ (15 <= startIndex c <= 20 ->
      annotate sample_pages 1 c
      = of_string "(Context: Continued from [P2])" ++ [NL] ++ text c).
Proof.
  split; [reflexivity|]. split; [|split].
  - intros i Hi Hnone. unfold annotate.
    destruct (Z.gtb_spec i 0); [|lia].
    rewrite matchAll_marker_all, (all_markers_none _ Hnone). reflexivity.
  - intros i p m Hi Hmk Hocc Hmax. unfold annotate.
    destruct (Z.gtb_spec i 0); [|lia].
    rewrite matchAll_marker_all.
    pose proof (all_markers_some _ p m Hmk Hocc) as Hne.
    apply len_pos_nonempty in Hne. rewrite Hne.
    rewrite (all_markers_last _ p m Hmk Hocc Hmax).
    unfold context_prefix. rewrite <- !app_assoc. reflexivity.
  - intros Hstart. destruct c as [t k]. cbn [startIndex text] in *.
    assert (Hk : k = 15 \/ k = 16 \/ k = 17 \/ k = 18 \/ k = 19 \/ k = 20)
      by lia.
    destruct Hk as [->|[->|[->|[->|[->| ->]]]]]; vm_compute; reflexivity.
Qed.

Lemma marker_P2_is_marker : is_marker marker_P2.
Proof.
  exists (of_string "2"). repeat split; [discriminate|].
  repeat constructor.
Qed.

Lemma annotate_rule_witness :
  1 <= 1
  /\ is_marker marker_P2
  /\ occurs_at marker_P2
       (slice sample_pages 0 (startIndex (mkChunk (of_string "Beta") 16))) 11
  /\ annotate sample_pages 1 (mkChunk (of_string "Beta") 16)
     = of_string "(Context: Continued from " ++ marker_P2 ++ of_string ")"
       ++ [NL] ++ of_string "Beta".
Proof.
  split; [lia|]. split; [exact marker_P2_is_marker|].
  split; [reflexivity|].
  refine (proj1 (proj2 (proj2 (annotate_rule sample_pages
                                 (mkChunk (of_string "Beta") 16))))
            1 11%nat marker_P2 _ marker_P2_is_marker eq_refl _); [lia|].
  intros p' m' Hmk Hocc.
  pose proof (occurrence_starts_with_bracket _ _ _ Hmk Hocc) as Hb.
  vm_compute in Hb.
  do 12 (destruct p' as [|p']; [lia|]).
  do 4 (destruct p' as [|p']; [discriminate|]).
  destruct p'; discriminate.
Defined.

(** ** Oracle adapter *)

Example JSON_parse_item_array :
  JSON_parse one_item_response = Some (JArray [one_item]).
Proof. reflexivity. Qed.

Example JSON_parse_nested :
  JSON_parse (with_quotes " {'a' : [1.5e2, true, null, {}], 'b' : 'x\u0041'} ")
  = Some (JObject
            [(of_string "a",
              JArray [JNumber (mkNumber false 15 1); JBool true; JNull;
                      JObject []]);
             (of_string "b", JString (of_string "xA"))]).
Proof. reflexivity. Qed.

Example JSON_parse_rejects :
  JSON_parse (of_string "[1,]") = None
  /\ JSON_parse (of_string "01") = None
  /\ JSON_parse (of_string "[1 2]") = None
  /\ JSON_parse (of_string "nul") = None
  /\ JSON_parse (with_quotes "{'a':1,}") = None
  /\ JSON_parse (with_quotes "{a:1}") = None
  /\ JSON_parse (with_quotes "'open") = None
  /\ JSON_parse [] = None.
Proof. repeat split; reflexivity. Qed.

Example cleanJson_strips_fences :
  cleanJson (of_string "  ```json" ++ [NL] ++ bogus_response ++ [NL]
             ++ of_string "```  ") = bogus_response
  /\ cleanJson (of_string "```" ++ [NL] ++ bogus_response ++ of_string "```")
     = bogus_response
  /\ cleanJson (of_string " " ++ bogus_response ++ [NL]) = bogus_response
  /\ cleanJson (bogus_response ++ of_string "```")
     = bogus_response ++ of_string "```".
Proof. repeat split; reflexivity. Qed.

Lemma JSON_parse_empty : JSON_parse (cleanJson []) = None.
Proof. reflexivity. Qed.

Lemma getGeminiClient_ok (key : jsstring) :
  key <> [] -> getGeminiClient key = Ok tt.
Proof. destruct key; [congruence|reflexivity]. Qed.

Lemma verifyManuscript_responded (oracle : jsstring -> oracle_outcome)
    (txt key jsonText : jsstring) :
  key <> [] -> oracle txt = Responded (Some jsonText) ->
  verifyManuscript oracle txt key
  = match JSON_parse (cleanJson jsonText) with
    | Some v => Ok v
    | None => Ok (JArray [])
    end.
Proof.
  intros Hkey Hresp. unfold verifyManuscript.
  rewrite (getGeminiClient_ok key Hkey), Hresp. cbn [bind].
  destruct jsonText; [rewrite JSON_parse_empty|]; reflexivity.
Qed.

Lemma verifyManuscript_rejected (oracle : jsstring -> oracle_outcome)
    (txt key : jsstring) (e : exn) :
  key <> [] -> oracle txt = Rejected e ->
  verifyManuscript oracle txt key = Throw e.
Proof.
  intros Hkey Hrej. unfold verifyManuscript.
  rewrite (getGeminiClient_ok key Hkey), Hrej. reflexivity.
Qed.

(** ** Orchestrator *)

Lemma setResults_same (st : AppState) :
  setResults (results st ++ []) st = st.
Proof. destruct st. unfold setResults. simpl. rewrite app_nil_r. reflexivity. Qed.

Section Loop.

Variables T key : jsstring.
Variable oracle : nat -> jsstring -> oracle_outcome.
Variable n : Z.

(** One iteration whose call returns an array: its elements are appended
    and the progress advances. *)
Lemma process_chunks_step_ok (i : nat) (c : Chunk) (rest : list Chunk)
    (st : AppState) (l : list event) (items : list json) :
  verifyManuscript (oracle i) (annotate T (Z.of_nat i) c) key
    = Ok (JArray items) ->
  process_chunks T key oracle n i (c :: rest) st l
  = process_chunks T key oracle n (S i) rest
      (setProgress (Some (Progress.mk (Z.of_nat i + 1) n))
         (setResults (results st ++ items) st))
      (l ++ [EvVerify (annotate T (Z.of_nat i) c);
             EvProgress (Some (Progress.mk (Z.of_nat i + 1) n))]).
Proof.
  intros Hok. cbn [process_chunks]. rewrite Hok. cbn [spread].
  rewrite <- app_assoc. reflexivity.
Qed.

(** One iteration whose call throws: the loop is left with the state as
    it was. *)
Lemma process_chunks_step_throw (i : nat) (c : Chunk) (rest : list Chunk)
    (st : AppState) (l : list event) (e : exn) :
  verifyManuscript (oracle i) (annotate T (Z.of_nat i) c) key = Throw e ->
  process_chunks T key oracle n i (c :: rest) st l
  = (LoopThrew e, st, l ++ [EvVerify (annotate T (Z.of_nat i) c)]).
Proof. intros Hthrow. cbn [process_chunks]. rewrite Hthrow. reflexivity. Qed.

End Loop.

(** C4. Failure policy of the adapter, for any chunk at any point of the
    loop: when the response text, fences stripped, does not parse as JSON,
    [verifyManuscript] returns the empty array and throws nothing, and the
    loop goes on to the next chunk with the result set unchanged and the
    progress advanced; when the call itself is rejected, the rejection is
    thrown on and the loop is left at once. *)
Theorem verifyManuscript_failure_policy (T key : jsstring)
    (oracle : nat -> jsstring -> oracle_outcome) (n : Z) (i : nat)
    (c : Chunk) (rest : list Chunk) (st : AppState) (l : list event) :
  key <> [] ->
  (forall jsonText,
     oracle i (annotate T (Z.of_nat i) c) = Responded (Some jsonText) ->
     JSON_parse (cleanJson jsonText) = None ->
     verifyManuscript (oracle i) (annotate T (Z.of_nat i) c) key
       = Ok (JArray [])
     /\ process_chunks T key oracle n i (c :: rest) st l
        = process_chunks T key oracle n (S i) rest
            (setProgress (Some (Progress.mk (Z.of_nat i + 1) n)) st)
            (l ++ [EvVerify (annotate T (Z.of_nat i) c);
                   EvProgress (Some (Progress.mk (Z.of_nat i + 1) n))]))
  /\ (forall e,
        oracle i (annotate T (Z.of_nat i) c) = Rejected e ->
        verifyManuscript (oracle i) (annotate T (Z.of_nat i) c) key = Throw e
        /\ process_chunks T key oracle n i (c :: rest) st l
           = (LoopThrew e, st, l ++ [EvVerify (annotate T (Z.of_nat i) c)])).
Proof.
  intros Hkey. split.
  - intros jsonText Hresp Hparse.
    assert (Hv : verifyManuscript (oracle i) (annotate T (Z.of_nat i) c) key
                 = Ok (JArray [])).
    { rewrite (verifyManuscript_responded _ _ _ _ Hkey Hresp), Hparse.
      reflexivity. }
    split; [exact Hv|].
    rewrite (process_chunks_step_ok _ _ _ _ _ _ _ _ _ _ Hv).
    rewrite setResults_same. reflexivity.
  - intros e Hrej.
    pose proof (verifyManuscript_rejected _ _ _ _ Hkey Hrej) as Hv.
    split; [exact Hv|].
    apply process_chunks_step_throw, Hv.
Qed.

Lemma verifyManuscript_failure_policy_witness :
  sample_key <> []
  /\ oracle_garbage 0%nat (annotate sample_text 0 (mkChunk sample_text 0))
     = Responded (Some fenced_garbage)
  /\ JSON_parse (cleanJson fenced_garbage) = None
  /\ verifyManuscript (oracle_garbage 0%nat)
       (annotate sample_text 0 (mkChunk sample_text 0)) sample_key
     = Ok (JArray []).
Proof.
  split; [discriminate|]. split; [reflexivity|]. split; [reflexivity|].
  refine (proj1 (proj1 (verifyManuscript_failure_policy sample_text
                          sample_key oracle_garbage 1 0
                          (mkChunk sample_text 0) [] small_state [] _)
                   fenced_garbage eq_refl eq_refl)).
  discriminate.
Defined.

(** C2 (as amended). The adapter validates nothing: whenever the response
    text, fences stripped, parses as JSON, [verifyManuscript] returns the
    parsed value as it is, whatever fields and statuses its items carry;
    when that value is an array the loop appends all its elements to the
    result set. *)
Theorem verifyManuscript_returns_parsed (T key : jsstring)
    (oracle : nat -> jsstring -> oracle_outcome) (n : Z) (i : nat)
    (c : Chunk) (rest : list Chunk) (st : AppState) (l : list event)
    (jsonText : jsstring) (v : json) :
  key <> [] ->
  oracle i (annotate T (Z.of_nat i) c) = Responded (Some jsonText) ->
  JSON_parse (cleanJson jsonText) = Some v ->
  verifyManuscript (oracle i) (annotate T (Z.of_nat i) c) key = Ok v
  /\ (forall items, v = JArray items ->
        process_chunks T key oracle n i (c :: rest) st l
        = process_chunks T key oracle n (S i) rest
            (setProgress (Some (Progress.mk (Z.of_nat i + 1) n))
               (setResults (results st ++ items) st))
            (l ++ [EvVerify (annotate T (Z.of_nat i) c);
                   EvProgress (Some (Progress.mk (Z.of_nat i + 1) n))])).
Proof.
  intros Hkey Hresp Hparse.
  assert (Hv : verifyManuscript (oracle i) (annotate T (Z.of_nat i) c) key
               = Ok v).
  { rewrite (verifyManuscript_responded _ _ _ _ Hkey Hresp), Hparse.
    reflexivity. }
  split; [exact Hv|].
  intros items ->. apply process_chunks_step_ok, Hv.
Qed.

Lemma verifyManuscript_returns_parsed_witness :
  sample_key <> []
  /\ oracle_bogus 0%nat (annotate sample_text 0 (mkChunk sample_text 0))
     = Responded (Some bogus_response)
  /\ JSON_parse (cleanJson bogus_response) = Some (JArray [bogus_item])
  /\ verifyManuscript (oracle_bogus 0%nat)
       (annotate sample_text 0 (mkChunk sample_text 0)) sample_key
     = Ok (JArray [bogus_item]).
Proof.
  split; [discriminate|]. split; [reflexivity|]. split; [reflexivity|].
  refine (proj1 (verifyManuscript_returns_parsed sample_text sample_key
                   oracle_bogus 1 0 (mkChunk sample_text 0) [] small_state
                   [] bogus_response (JArray [bogus_item]) _ eq_refl eq_refl)).
  discriminate.
Defined.

(** C2 as stated fails: an item without location and quote_text and with
    the status BOGUS is returned by the adapter, and a run on a one-chunk
    text ends with that item in the result set. *)
Lemma verifyManuscript_unvalidated_counterexample :
  ~ (forall (oracle : jsstring -> oracle_outcome) (txt key : jsstring)
            (items : list json),
       verifyManuscript oracle txt key = Ok (JArray items) ->
       Forall schema_valid items)
  /\ results (final (handleAnalyze oracle_bogus small_state)) = [bogus_item]
  /\ ~ schema_valid bogus_item.
Proof.
  assert (Hbad : ~ schema_valid bogus_item).
  { intros ((v & Hloc) & _). vm_compute in Hloc. discriminate. }
  split; [|split; [vm_compute; reflexivity|exact Hbad]].
  intros H.
  specialize (H (oracle_bogus 0%nat) (of_string "x") sample_key [bogus_item]
                eq_refl).
  inversion H; subst. contradiction.
Qed.

Lemma skipn_nth_cons {A} (l : list A) :
  forall i x, nth_error l i = Some x -> skipn i l = x :: skipn (S i) l.
Proof.
  induction l as [|y l IH]; intros [|i] x H; try discriminate.
  - simpl in H. injection H as ->. reflexivity.
  - simpl in H. cbn [skipn]. rewrite (IH i x H). reflexivity.
Qed.

Lemma chunk_content_nth (T : jsstring) (chunks : list Chunk) (j : nat)
    (c : Chunk) :
  nth_error chunks j = Some c ->
  chunk_content T chunks j = annotate T (Z.of_nat j) c.
Proof. intros H. unfold chunk_content. rewrite H. reflexivity. Qed.

(** The loop over [k] chunks that all complete. *)
Lemma process_chunks_completed (T key : jsstring)
    (oracle : nat -> jsstring -> oracle_outcome) (chunks : list Chunk)
    (items : nat -> list json) (k : nat) :
  forall (i : nat) (st : AppState) (l : list event),
    (i + k <= List.length chunks)%nat ->
    (forall j, (i <= j < i + k)%nat ->
       verifyManuscript (oracle j) (chunk_content T chunks j) key
       = Ok (JArray (items j))) ->
    process_chunks T key oracle (len chunks) i (skipn i chunks) st l
    = process_chunks T key oracle (len chunks) (i + k)
        (skipn (i + k) chunks)
        (after_chunks items (len chunks) i k st)
        (l ++ completed_events T chunks i k).
Proof.
  induction k as [|k IH]; intros i st l Hlen Hok.
  - rewrite Nat.add_0_r. unfold after_chunks, completed_events. simpl.
    rewrite app_nil_r. reflexivity.
  - destruct (nth_error chunks i) as [c|] eqn:Hc.
    2: { apply nth_error_None in Hc. lia. }
    rewrite (skipn_nth_cons _ _ _ Hc).
    pose proof (Hok i ltac:(lia)) as Hi.
    rewrite (chunk_content_nth _ _ _ _ Hc) in Hi.
    rewrite (process_chunks_step_ok _ _ _ _ _ _ _ _ _ _ Hi).
    rewrite (IH (S i)) by (try lia; intros j Hj; apply Hok; lia).
    replace (S i + k)%nat with (i + S k)%nat by lia.
    unfold after_chunks, completed_events. cbn [seq fold_left flat_map].
    rewrite (chunk_content_nth _ _ _ _ Hc), <- app_assoc. reflexivity.
Qed.

Lemma after_chunks_fields (items : nat -> list json) (n : Z) (k : nat) :
  forall (from : nat) (st : AppState),
    results (after_chunks items n from k st)
      = results st ++ flat_map items (seq from k)
    /\ error (after_chunks items n from k st) = error st
    /\ isProcessing (after_chunks items n from k st) = isProcessing st.
Proof.
  unfold after_chunks. induction k as [|k IH]; intros from st.
  - simpl. rewrite app_nil_r. auto.
  - cbn [seq fold_left flat_map].
    destruct (IH (S from)
                (setProgress (Some (Progress.mk (Z.of_nat from + 1) n))
                   (setResults (results st ++ items from) st)))
      as (Hr & He & Hp).
    rewrite Hr, He, Hp. cbn [results error isProcessing setProgress setResults].
    rewrite <- app_assoc. auto.
Qed.

Lemma reported_app (a b : list event) :
  reported (a ++ b) = reported a ++ reported b.
Proof. unfold reported. apply flat_map_app. Qed.

Lemma verified_app (a b : list event) :
  verified (a ++ b) = verified a ++ verified b.
Proof. unfold verified. apply flat_map_app. Qed.

Lemma reported_completed (T : jsstring) (chunks : list Chunk) (k : nat) :
  forall from,
    reported (completed_events T chunks from k)
    = map (fun j => Some (Progress.mk (Z.of_nat j + 1) (len chunks)))
          (seq from k).
Proof.
  unfold completed_events, reported.
  induction k as [|k IH]; intros from; [reflexivity|].
  cbn [seq flat_map map app]. rewrite IH. reflexivity.
Qed.

Lemma verified_completed (T : jsstring) (chunks : list Chunk) (k : nat) :
  forall from,
    verified (completed_events T chunks from k)
    = map (chunk_content T chunks) (seq from k).
Proof.
  unfold completed_events, verified.
  induction k as [|k IH]; intros from; [reflexivity|].
  cbn [seq flat_map map app]. rewrite IH. reflexivity.
Qed.

Lemma handleAnalyze_started (oracle : nat -> jsstring -> oracle_outcome)
    (st : AppState) (chunks : list Chunk) :
  apiKey st <> [] -> trim (inputText st) <> [] ->
  createChunks (inputText st) CHUNK_SIZE = Some chunks ->
  handleAnalyze oracle st
  = match process_chunks (inputText st) (apiKey st) oracle (len chunks) 0
            chunks
            (setProgress (Some (Progress.mk 0 (len chunks)))
               (setProgress None
                  (setResults []
                     (setIsProcessing true (setError None st)))))
            ([EvProgress None]
             ++ [EvProgress (Some (Progress.mk 0 (len chunks)))]) with
    | (LoopDone, st2, l) => finish st2 l
    | (LoopThrew _, st2, l) => finish (setError (Some msg_failed) st2) l
    | (LoopUpdaterThrew e None, st2, l) => updater_threw e (finish st2 l)
    | (LoopUpdaterThrew e (Some _), st2, l) =>
        updater_threw e (finish (setError (Some msg_failed) st2) l)
    end.
Proof.
  intros Hkey Htext Hchunks. unfold handleAnalyze.
  destruct (apiKey st) eqn:Ek; [congruence|].
  destruct (trim (inputText st)) eqn:Et; [congruence|].
  rewrite Hchunks. reflexivity.
Qed.

(** The chunk size of the handler is positive, so its call of the
    segmenter always returns. *)
Lemma handleAnalyze_never_diverges
    (oracle : nat -> jsstring -> oracle_outcome) (st : AppState) :
  ended (handleAnalyze oracle st) <> Diverged.
Proof.
  unfold handleAnalyze.
  destruct (apiKey st); [discriminate|].
  destruct (trim (inputText st)); [discriminate|].
  destruct (createChunks_chained (inputText st) CHUNK_SIZE
              ltac:(unfold CHUNK_SIZE; lia)) as (chunks & -> & _).
  destruct (process_chunks _ _ _ _ _ _ _ _) as [[[| |? [?|]] ?] ?];
    discriminate.
Qed.

Lemma progress_values_shift (n : Z) (k : nat) :
  Some (Progress.mk 0 n)
    :: map (fun j => Some (Progress.mk (Z.of_nat j + 1) n)) (seq 0 k)
  = map (fun j => Some (Progress.mk (Z.of_nat j) n)) (seq 0 (S k)).
Proof.
  cbn [seq map]. f_equal. rewrite <- seq_shift, map_map.
  apply map_ext. intros j. rewrite Nat2Z.inj_succ. reflexivity.
Qed.

(** The run in which the first [k] chunks complete and chunk [k] throws. *)
Lemma handleAnalyze_throw_run (oracle : nat -> jsstring -> oracle_outcome)
    (st : AppState) (chunks : list Chunk) (k : nat) (e : exn)
    (items : nat -> list json) :
  apiKey st <> [] -> trim (inputText st) <> [] ->
  createChunks (inputText st) CHUNK_SIZE = Some chunks ->
  (k < List.length chunks)%nat ->
  (forall j, (j < k)%nat ->
     verifyManuscript (oracle j) (chunk_content (inputText st) chunks j)
       (apiKey st) = Ok (JArray (items j))) ->
  verifyManuscript (oracle k) (chunk_content (inputText st) chunks k)
    (apiKey st) = Throw e ->
  handleAnalyze oracle st
  = finish
      (setError (Some msg_failed)
         (after_chunks items (len chunks) 0 k
            (setProgress (Some (Progress.mk 0 (len chunks)))
               (setProgress None
                  (setResults []
                     (setIsProcessing true (setError None st)))))))
      (([EvProgress None]
        ++ [EvProgress (Some (Progress.mk 0 (len chunks)))])
       ++ completed_events (inputText st) chunks 0 k
       ++ [EvVerify (chunk_content (inputText st) chunks k)]).
Proof.
  intros Hkey Htext Hchunks Hk Hok Hthrow.
  rewrite (handleAnalyze_started oracle st chunks Hkey Htext Hchunks).
  change chunks with (skipn 0 chunks) at 2.
  rewrite (process_chunks_completed _ _ _ _ items k 0)
    by (try (simpl; lia); intros j Hj; apply Hok; lia).
  cbn [Nat.add].
  destruct (nth_error chunks k) as [c|] eqn:Hc.
  2: { apply nth_error_None in Hc. lia. }
  rewrite (chunk_content_nth _ _ _ _ Hc) in Hthrow |- *.
  rewrite (skipn_nth_cons _ _ _ Hc).
  rewrite (process_chunks_step_throw _ _ _ _ _ _ _ _ _ _ Hthrow).
  rewrite <- app_assoc. reflexivity.
Qed.

(** The run in which every chunk completes. *)
Lemma handleAnalyze_complete_run (oracle : nat -> jsstring -> oracle_outcome)
    (st : AppState) (chunks : list Chunk) (items : nat -> list json) :
  apiKey st <> [] -> trim (inputText st) <> [] ->
  createChunks (inputText st) CHUNK_SIZE = Some chunks ->
  (forall j, (j < List.length chunks)%nat ->
     verifyManuscript (oracle j) (chunk_content (inputText st) chunks j)
       (apiKey st) = Ok (JArray (items j))) ->
  handleAnalyze oracle st
  = finish
      (after_chunks items (len chunks) 0 (List.length chunks)
         (setProgress (Some (Progress.mk 0 (len chunks)))
            (setProgress None
               (setResults []
                  (setIsProcessing true (setError None st))))))
      (([EvProgress None]
        ++ [EvProgress (Some (Progress.mk 0 (len chunks)))])
       ++ completed_events (inputText st) chunks 0 (List.length chunks)).
Proof.
  intros Hkey Htext Hchunks Hok.
  rewrite (handleAnalyze_started oracle st chunks Hkey Htext Hchunks).
  change chunks with (skipn 0 chunks) at 2.
  rewrite (process_chunks_completed _ _ _ _ items (List.length chunks) 0)
    by (try (simpl; lia); intros j Hj; apply Hok; lia).
  cbn [Nat.add]. rewrite skipn_all. reflexivity.
Qed.

(** C3 (as amended). Abort on an oracle failure: when the adapter returns
    item arrays for the chunks number 0 to k-1 and throws on chunk number
    k, the handler returns with the result set holding exactly the items
    of the chunks 0 to k-1 in order, the error message of a failed run set
    (a run in which every chunk completes ends with no error set), and
    [isProcessing] false; the chunks handed to the adapter are the chunks
    0 to k and no other; the progress values reported are null, then
    current = 0, 1, ..., k with total = the number of chunks, then null:
    the last value before the abort has current = k, and the progress is
    null once the handler has returned. *)
Theorem handleAnalyze_abort (oracle : nat -> jsstring -> oracle_outcome)
    (st : AppState) (chunks : list Chunk) (k : nat) (e : exn)
    (items : nat -> list json) :
  apiKey st <> [] -> trim (inputText st) <> [] ->
  createChunks (inputText st) CHUNK_SIZE = Some chunks ->
  (k < List.length chunks)%nat ->
  (forall j, (j < k)%nat ->
     verifyManuscript (oracle j) (chunk_content (inputText st) chunks j)
       (apiKey st) = Ok (JArray (items j))) ->
  verifyManuscript (oracle k) (chunk_content (inputText st) chunks k)
    (apiKey st) = Throw e ->
  ended (handleAnalyze oracle st) = Returned
  /\ results (final (handleAnalyze oracle st)) = flat_map items (seq 0 k)
  /\ error (final (handleAnalyze oracle st)) = Some msg_failed
  /\ isProcessing (final (handleAnalyze oracle st)) = false
  /\ progress (final (handleAnalyze oracle st)) = None
  /\ verified (log (handleAnalyze oracle st))
     = map (chunk_content (inputText st) chunks) (seq 0 (S k))
  /\ reported (log (handleAnalyze oracle st))
     = [None]
       ++ map (fun j => Some (Progress.mk (Z.of_nat j) (len chunks)))
              (seq 0 (S k))
       ++ [None]
  /\ (forall oracle' items',
        (forall j, (j < List.length chunks)%nat ->
           verifyManuscript (oracle' j)
             (chunk_content (inputText st) chunks j) (apiKey st)
           = Ok (JArray (items' j))) ->
        error (final (handleAnalyze oracle' st)) = None).
Proof.
  intros Hkey Htext Hchunks Hk Hok Hthrow.
  rewrite (handleAnalyze_throw_run oracle st chunks k e items
             Hkey Htext Hchunks Hk Hok Hthrow).
  unfold finish. cbn [ended final log].
  match goal with
  | |- context [after_chunks items ?n 0 k ?s0] =>
      destruct (after_chunks_fields items n k 0 s0) as (Hr & He & Hp)
  end.
  split; [reflexivity|]. split; [|split; [|split; [|split]]].
  - cbn [results setProgress setIsProcessing setError].
    rewrite Hr. reflexivity.
  - reflexivity.
  - reflexivity.
  - reflexivity.
  - split; [|split].
    + rewrite !verified_app, verified_completed.
      rewrite seq_S, map_app. cbn [verified flat_map app map Nat.add].
      rewrite app_nil_r. reflexivity.
    + rewrite !reported_app, reported_completed.
      rewrite <- progress_values_shift. cbn [reported flat_map app].
      rewrite app_nil_r. reflexivity.
    + intros oracle' items' Hall.
      rewrite (handleAnalyze_complete_run oracle' st chunks items'
                 Hkey Htext Hchunks Hall).
      unfold finish. cbn [final error setProgress setIsProcessing].
      match goal with
      | |- context [after_chunks items' ?n 0 ?m ?s0] =>
          destruct (after_chunks_fields items' n m 0 s0) as (_ & He' & _)
      end.
      rewrite He'. reflexivity.
Qed.

Lemma long_text_chunks :
  exists chunks,
    createChunks (inputText long_state) CHUNK_SIZE = Some chunks
    /\ List.length chunks = 2%nat.
Proof.
  assert (H : option_map (@List.length Chunk)
                (createChunks (inputText long_state) CHUNK_SIZE)
              = Some 2%nat) by (vm_compute; reflexivity).
  destruct (createChunks (inputText long_state) CHUNK_SIZE) as [chunks|];
    [|discriminate].
  exists chunks. split; [reflexivity|]. injection H as H. exact H.
Qed.

Lemma long_text_not_blank : trim (inputText long_state) <> [].
Proof.
  assert (H : len (trim (inputText long_state)) = 30001)
    by (vm_compute; reflexivity).
  intros E. rewrite E in H. discriminate H.
Qed.

Lemma oracle_fails_second_first (txt : jsstring) :
  verifyManuscript (oracle_fails_second 0%nat) txt (apiKey long_state)
  = Ok (JArray [one_item]).
Proof. reflexivity. Qed.

Lemma oracle_fails_second_later (txt : jsstring) :
  verifyManuscript (oracle_fails_second 1%nat) txt (apiKey long_state)
  = Throw (ApiError 503).
Proof. reflexivity. Qed.

Lemma handleAnalyze_abort_witness :
  exists chunks,
    apiKey long_state <> []
    /\ trim (inputText long_state) <> []
    /\ createChunks (inputText long_state) CHUNK_SIZE = Some chunks
    /\ (1 < List.length chunks)%nat
    /\ verifyManuscript (oracle_fails_second 1%nat)
         (chunk_content (inputText long_state) chunks 1)
         (apiKey long_state) = Throw (ApiError 503)
    /\ results (final (handleAnalyze oracle_fails_second long_state))
       = [one_item]
    /\ error (final (handleAnalyze oracle_fails_second long_state))
       = Some msg_failed
    /\ progress (final (handleAnalyze oracle_fails_second long_state)) = None
    /\ reported (log (handleAnalyze oracle_fails_second long_state))
       = [None; Some (Progress.mk 0 2); Some (Progress.mk 1 2); None].
Proof.
  destruct long_text_chunks as (chunks & Hchunks & Hlen).
  exists chunks.
  assert (Hkey : apiKey long_state <> []) by discriminate.
  assert (Hk : (1 < List.length chunks)%nat) by lia.
  pose proof (oracle_fails_second_later
                (chunk_content (inputText long_state) chunks 1)) as Hthrow.
  assert (Hok : forall j, (j < 1)%nat ->
            verifyManuscript (oracle_fails_second j)
              (chunk_content (inputText long_state) chunks j)
              (apiKey long_state) = Ok (JArray ((fun _ => [one_item]) j))).
  { intros j Hj. assert (j = 0)%nat by lia. subst j.
    apply oracle_fails_second_first. }
  destruct (handleAnalyze_abort oracle_fails_second long_state chunks
              1 (ApiError 503) (fun _ => [one_item]) Hkey
              long_text_not_blank Hchunks Hk Hok Hthrow)
    as (_ & Hres & Herr & _ & Hprog & _ & Hrep & _).
  unfold len in Hrep. rewrite Hlen in Hrep.
  repeat split; try assumption.
  exact long_text_not_blank.
Defined.

(** C3 as stated fails on the progress: on a text of two chunks, with an
    oracle that gives one item for the first chunk and fails on the second,
    the run ends with that one item in the result set and the error set,
    but its progress is null, not current = 1 of total = 2. *)
Lemma handleAnalyze_progress_counterexample :
  option_map (@List.length Chunk)
    (createChunks (inputText long_state) CHUNK_SIZE) = Some 2%nat
  /\ results (final (handleAnalyze oracle_fails_second long_state))
     = [one_item]
  /\ error (final (handleAnalyze oracle_fails_second long_state))
     = Some msg_failed
  /\ progress (final (handleAnalyze oracle_fails_second long_state))
     <> Some (Progress.mk 1 2).
Proof.
  split; [vm_compute; reflexivity|].
  split; [vm_compute; reflexivity|].
  split; [vm_compute; reflexivity|].
  vm_compute. discriminate.
Qed.

(** * Further properties *)

(** ** Segmenter: short texts, cut positions, size zero *)

Lemma createChunks_loop_stepped (fuel : nat) :
  forall (T : jsstring) (size i : Z) (acc r : list Chunk),
    createChunks_loop fuel T size i acc = Some r ->
    exists out, r = acc ++ out /\ stepped T size i out.
Proof.
  induction fuel as [|fuel IH]; intros T size i acc r Hrun; [discriminate|].
  cbn [createChunks_loop] in Hrun.
  destruct (Z.ltb_spec i (len T)) as [Hlt|Hge].
  - destruct (IH _ _ _ _ _ Hrun) as (out & -> & Hst).
    exists (mkChunk (slice T i (chunk_end T size i)) i :: out).
    rewrite <- app_assoc. split; [reflexivity|].
    cbn [stepped]. auto.
  - injection Hrun as <-. exists []. rewrite app_nil_r. split; [reflexivity|].
    exact Hge.
Qed.

Lemma createChunks_stepped (T : jsstring) (size : Z) (chunks : list Chunk) :
  createChunks T size = Some chunks -> stepped T size 0 chunks.
Proof.
  intros Hrun. unfold createChunks, createChunks_fuel in Hrun.
  destruct (createChunks_loop_stepped _ _ _ _ _ _ Hrun) as (out & -> & Hst).
  exact Hst.
Qed.

(** X1. Short texts: the empty text gives no chunk, whatever the size;
    a non-empty text that is not longer than the size gives exactly one
    chunk, the whole text at start index 0. *)
Theorem createChunks_short_text :
  (forall size, createChunks [] size = Some [])
  /\ (forall T size, T <> [] -> len T <= size ->
        createChunks T size = Some [mkChunk T 0]).
Proof.
  split; [reflexivity|].
  intros T size HT Hsize.
  assert (Hlen : 0 < len T).
  { destruct T; [congruence|]. rewrite len_cons.
    pose proof (len_nonneg T). lia. }
  assert (Hend : chunk_end T size 0 = len T).
  { unfold chunk_end. rewrite Z.min_r by lia.
    rewrite Z.ltb_irrefl. reflexivity. }
  assert (Hslice : slice T 0 (len T) = T).
  { rewrite slice_in_range by lia. rewrite Z.sub_0_r. unfold len.
    rewrite Nat2Z.id. cbn [Z.to_nat skipn]. apply firstn_all. }
  unfold createChunks, createChunks_fuel.
  destruct T as [|x T]; [congruence|].
  cbn [List.length createChunks_loop].
  destruct (Z.ltb_spec 0 (len (x :: T))); [|lia].
  rewrite Hend, Hslice.
  destruct (Z.ltb_spec (len (x :: T)) (len (x :: T))); [lia|].
  reflexivity.
Qed.

Lemma createChunks_short_text_witness :
  sample_text <> [] /\ len sample_text <= 20
  /\ createChunks sample_text 20 = Some [mkChunk sample_text 0].
Proof.
  split; [discriminate|]. split; [vm_compute; discriminate|].
  apply (proj2 createChunks_short_text); [discriminate|].
  vm_compute. discriminate.
Defined.

Lemma chunk_end_cases (T : jsstring) (size i : Z) :
  0 < size -> 0 <= i < len T -> chunk_end T size i < len T ->
  chunk_end T size i = i + size
  \/ (10 * i + 9 * size < 10 * chunk_end T size i
      /\ charAt T (chunk_end T size i) = Some NL).
Proof.
  intros Hsize Hi. unfold chunk_end.
  destruct (Z.ltb_spec (Z.min (i + size) (len T)) (len T)) as [Hlt|Hge];
    [|lia].
  rewrite Z.min_l in * by lia.
  destruct (lastIndexOf_spec T NL (i + size) ltac:(lia)) as [Hr _].
  destruct (Z.gtb_spec (10 * lastIndexOf T NL (i + size)) (10 * i + 9 * size))
    as [Hgt|Hle]; intros Hend; [right|left; reflexivity].
  split; [lia|]. destruct Hr as [Hr|[_ Hhit]]; [lia|exact Hhit].
Qed.

Lemma hd_error_slice (T : jsstring) (a b : Z) :
  0 <= a < b -> b <= len T -> hd_error (slice T a b) = charAt T a.
Proof.
  intros Ha Hb. rewrite slice_in_range, charAt_nth by lia.
  destruct (Z.to_nat (b - a)) as [|m] eqn:Hm; [lia|].
  transitivity (nth_error (skipn (Z.to_nat a) T) 0).
  - destruct (skipn (Z.to_nat a) T); reflexivity.
  - rewrite nth_error_skipn, Nat.add_0_r. reflexivity.
Qed.

Lemma stepped_cut (T : jsstring) (size : Z) (cs : list Chunk) :
  0 < size ->
  forall i k c c', 0 <= i -> stepped T size i cs ->
    nth_error cs k = Some c -> nth_error cs (S k) = Some c' ->
    len (text c) = size
    \/ (9 * size < 10 * len (text c) /\ hd_error (text c') = Some NL).
Proof.
  intros Hsize. induction cs as [|c0 cs IH]; intros i k c c' Hi Hst Hk Hk'.
  - destruct k; discriminate.
  - cbn [stepped] in Hst. destruct Hst as (Hlt & Hc0 & Hst).
    destruct (chunk_end_bounds T size Hsize i ltac:(lia)) as [Hb Hs].
    destruct k as [|k].
    + simpl in Hk, Hk'. injection Hk as <-.
      destruct cs as [|c1 cs]; [discriminate|]. injection Hk' as <-.
      cbn [stepped] in Hst. destruct Hst as (Hlt1 & Hc1 & _).
      destruct (chunk_end_bounds T size Hsize (chunk_end T size i)
                  ltac:(lia)) as [Hb1 _].
      subst c0 c1. cbn [text].
      rewrite len_slice by lia.
      destruct (chunk_end_cases T size i Hsize ltac:(lia) Hlt1)
        as [He|[Hgt Hnl]]; [left; lia|right].
      split; [lia|]. rewrite hd_error_slice by lia. exact Hnl.
    + simpl in Hk, Hk'.
      apply (IH (chunk_end T size i) k c c'); try assumption. lia.
Qed.

(** X2. Cut positions: every chunk but the last either has exactly the
    size, or is longer than 0.9 * size and is followed by a chunk that
    begins with a line feed (the line feed at which the text was cut opens
    the next chunk). *)
Theorem createChunks_cut_positions (T : jsstring) (size : Z)
    (chunks : list Chunk) :
  0 < size -> createChunks T size = Some chunks ->
  forall k c c',
    nth_error chunks k = Some c -> nth_error chunks (S k) = Some c' ->
    len (text c) = size
    \/ (9 * size < 10 * len (text c) /\ hd_error (text c') = Some NL).
Proof.
  intros Hsize Hrun k c c'.
  apply (stepped_cut T size chunks Hsize 0); [lia|].
  apply createChunks_stepped, Hrun.
Qed.

Lemma createChunks_cut_positions_witness :
  0 < 11
  /\ createChunks sample_text_late_break 11
     = Some [mkChunk (of_string "aaaaaaaaaa") 0;
             mkChunk ([NL] ++ of_string "bbbbbbbbbb") 10]
  /\ (len (of_string "aaaaaaaaaa") = 11
      \/ (9 * 11 < 10 * len (of_string "aaaaaaaaaa")
          /\ hd_error ([NL] ++ of_string "bbbbbbbbbb") = Some NL)).
Proof.
  split; [lia|]. split; [reflexivity|].
  exact (createChunks_cut_positions sample_text_late_break 11 _
           ltac:(lia) eq_refl 0%nat
           (mkChunk (of_string "aaaaaaaaaa") 0)
           (mkChunk ([NL] ++ of_string "bbbbbbbbbb") 10) eq_refl eq_refl).
Defined.

Lemma stepped_count (T : jsstring) (size : Z) (cs : list Chunk) :
  0 < size ->
  forall i, 0 <= i -> stepped T size i cs -> cs <> [] ->
    9 * size * (len cs - 1) < 10 * (len T - i).
Proof.
  intros Hsize. induction cs as [|c0 cs IH]; intros i Hi Hst Hne;
    [congruence|].
  cbn [stepped] in Hst. destruct Hst as (Hlt & _ & Hst).
  destruct (chunk_end_bounds T size Hsize i ltac:(lia)) as [Hb Hs].
  rewrite len_cons.
  destruct cs as [|c1 cs].
  - change (len (@nil Chunk)) with 0. lia.
  - assert (Hlt1 : chunk_end T size i < len T) by (cbn [stepped] in Hst; tauto).
    specialize (IH (chunk_end T size i) ltac:(lia) Hst ltac:(discriminate)).
    assert (Hlong : 9 * size < 10 * (chunk_end T size i - i)).
    { destruct (chunk_end_cases T size i Hsize ltac:(lia) Hlt1)
        as [He|[Hgt _]]; lia. }
    set (m := len (c1 :: cs)) in *. nia.
Qed.

Lemma texts_bound (size : Z) (cs : list Chunk) :
  Forall (fun c => len (text c) <= size) cs ->
  len (texts cs) <= size * len cs.
Proof.
  induction 1 as [|c cs Hc _ IH].
  - unfold len. simpl. lia.
  - change (texts (c :: cs)) with (text c ++ texts cs).
    rewrite len_app, len_cons. lia.
Qed.

(** X3. Number of chunks: for a positive size the number n of chunks, hence
    of oracle calls of a run, satisfies length <= size * n and
    0.9 * size * (n - 1) < length. *)
Theorem createChunks_count (T : jsstring) (size : Z) (chunks : list Chunk) :
  0 < size -> createChunks T size = Some chunks ->
  len T <= size * len chunks
  /\ 9 * size * (len chunks - 1) < 10 * len T.
Proof.
  intros Hsize Hrun. split.
  - destruct (createChunks_chained T size Hsize) as (cs & Hrun' & Hch & Hall).
    rewrite Hrun in Hrun'. injection Hrun' as <-.
    rewrite <- (chained_texts T chunks 0 ltac:(lia) Hch) at 1.
    apply texts_bound, Hall.
  - destruct chunks as [|c cs].
    + change (len (@nil Chunk)) with 0. pose proof (len_nonneg T). lia.
    + pose proof (stepped_count T size (c :: cs) Hsize 0 ltac:(lia)
                    (createChunks_stepped _ _ _ Hrun) ltac:(discriminate)).
      lia.
Qed.

Lemma createChunks_count_witness :
  0 < 11
  /\ createChunks sample_text_late_break 11
     = Some [mkChunk (of_string "aaaaaaaaaa") 0;
             mkChunk ([NL] ++ of_string "bbbbbbbbbb") 10]
  /\ len sample_text_late_break <= 11 * 2
  /\ 9 * 11 * (2 - 1) < 10 * len sample_text_late_break.
Proof.
  split; [lia|]. split; [reflexivity|].
  exact (createChunks_count sample_text_late_break 11 _ ltac:(lia) eq_refl).
Defined.

(** X4. Size zero: on a non-empty text the cursor never moves, so the loop
    of the source never returns; the embedding runs out of every amount of
    fuel. *)
Theorem createChunks_size_zero_never_returns (T : jsstring) :
  T <> [] ->
  chunk_end T 0 0 = 0 /\ forall fuel, createChunks_fuel fuel T 0 = None.
Proof.
  intros HT. split.
  - assert (Hlen : 0 < len T).
    { destruct T; [congruence|]. rewrite len_cons.
      pose proof (len_nonneg T). lia. }
    unfold chunk_end. rewrite Z.min_l by lia.
    destruct (Z.ltb_spec (0 + 0) (len T)); [|lia].
    destruct (lastIndexOf_spec T NL (0 + 0) ltac:(lia)) as [Hr _].
    destruct (Z.gtb_spec (10 * lastIndexOf T NL (0 + 0)) (10 * 0 + 9 * 0));
      lia.
  - intros fuel. apply createChunks_zero_size_diverges, HT.
Qed.

Lemma createChunks_size_zero_never_returns_witness :
  sample_text <> [] /\ forall fuel, createChunks_fuel fuel sample_text 0 = None.
Proof.
  split; [discriminate|].
  exact (proj2 (createChunks_size_zero_never_returns sample_text
                  ltac:(discriminate))).
Defined.

(** ** Aggregator: any items *)

Lemma get_prop_nonnull (r : json) (key : jsstring) :
  r <> JNull -> exists v, get_prop r key = Ok v.
Proof. destruct r; intros H; try congruence; eexists; reflexivity. Qed.

Lemma stats_step_bump (s : AnalysisStats) (r : json) :
  r <> JNull ->
  stats_step s r = Ok (bump s r)
  /\ b2z (has_status ACCURATE r) + b2z (has_status PARAPHRASED r)
     + b2z (has_status MISATTRIBUTED r) + b2z (has_status UNVERIFIABLE r)
     <= 1.
Proof.
  intros Hr. destruct (get_prop_nonnull r k_status Hr) as [v Hv].
  unfold stats_step, bump, has_status. rewrite Hv. cbn [bind].
  destruct s as [a p m u t]. cbn [accurate paraphrased misattributed
                                   unverifiable total].
  destruct v as [[| | |str| |]|]; cbn [strict_eq_string b2z];
    rewrite ?Z.add_0_r; try (split; [reflexivity|lia]).
  destruct (jsstring_eqb str ACCURATE) eqn:E1.
  { apply jsstring_eqb_eq in E1. subst str. eval_eqb. cbn [b2z].
    rewrite ?Z.add_0_r. split; [reflexivity|lia]. }
  destruct (jsstring_eqb str PARAPHRASED) eqn:E2.
  { apply jsstring_eqb_eq in E2. subst str. eval_eqb. cbn [b2z].
    rewrite ?Z.add_0_r. split; [reflexivity|lia]. }
  destruct (jsstring_eqb str MISATTRIBUTED) eqn:E3.
  { apply jsstring_eqb_eq in E3. subst str. eval_eqb. cbn [b2z].
    rewrite ?Z.add_0_r. split; [reflexivity|lia]. }
  destruct (jsstring_eqb str UNVERIFIABLE) eqn:E4; cbn [b2z];
    rewrite ?Z.add_0_r; split; (reflexivity || lia).
Qed.

Lemma count_status_b2z (lit : jsstring) (r : json) (rs : list json) :
  count_status lit (r :: rs) = b2z (has_status lit r) + count_status lit rs.
Proof. rewrite count_status_cons. reflexivity. Qed.

Lemma forEach_stats_any (rs : list json) :
  forall s0, ~ In JNull rs ->
    exists s,
      forEach stats_step rs s0 = Ok s
      /\ total s = total s0
      /\ accurate s = accurate s0 + count_status ACCURATE rs
      /\ paraphrased s = paraphrased s0 + count_status PARAPHRASED rs
      /\ misattributed s = misattributed s0 + count_status MISATTRIBUTED rs
      /\ unverifiable s = unverifiable s0 + count_status UNVERIFIABLE rs
      /\ count_status ACCURATE rs + count_status PARAPHRASED rs
         + count_status MISATTRIBUTED rs + count_status UNVERIFIABLE rs
         <= len rs.
Proof.
  induction rs as [|r rs IH]; intros s0 Hnn.
  - exists s0. unfold count_status, len. simpl. repeat split; lia.
  - assert (Hr : r <> JNull) by (intros ->; apply Hnn; left; reflexivity).
    assert (Hrs : ~ In JNull rs) by (intros H; apply Hnn; right; exact H).
    destruct (stats_step_bump s0 r Hr) as [Hstep Hone].
    cbn [forEach]. rewrite Hstep. cbn [bind].
    destruct (IH (bump s0 r) Hrs) as (s & Hrun & Ht & Ha & Hp & Hm & Hu & Hle).
    exists s. split; [exact Hrun|].
    rewrite !count_status_b2z, len_cons.
    cbn [bump accurate paraphrased misattributed unverifiable total]
      in Ht, Ha, Hp, Hm, Hu.
    repeat split; lia.
Qed.

(** X5. Items of any shape: when no item is null the aggregator returns;
    [total] is the number of items, each count is the number of items whose
    status is exactly that string, and the four counts together never
    exceed [total] (an item with another status, or with none, is counted
    in [total] only). *)
Theorem stats_any_items (rs : list json) :
  ~ In JNull rs ->
  exists s,
    stats rs = Ok s
    /\ total s = len rs
    /\ accurate s = count_status ACCURATE rs
    /\ paraphrased s = count_status PARAPHRASED rs
    /\ misattributed s = count_status MISATTRIBUTED rs
    /\ unverifiable s = count_status UNVERIFIABLE rs
    /\ accurate s + paraphrased s + misattributed s + unverifiable s
       <= total s.
Proof.
  intros Hnn. unfold stats.
  destruct (forEach_stats_any rs (mkStats 0 0 0 0 (len rs)) Hnn)
    as (s & Hrun & Ht & Ha & Hp & Hm & Hu & Hle).
  exists s. cbn [accurate paraphrased misattributed unverifiable total] in *.
  repeat split; try assumption; lia.
Qed.

Lemma stats_any_items_witness :
  ~ In JNull [bogus_item; item_json sample_item]
  /\ exists s,
       stats [bogus_item; item_json sample_item] = Ok s
       /\ total s = 2
       /\ accurate s + paraphrased s + misattributed s + unverifiable s
          <= total s.
Proof.
  assert (H : ~ In JNull [bogus_item; item_json sample_item]).
  { intros [H|[H|[]]]; discriminate. }
  split; [exact H|].
  destruct (stats_any_items _ H) as (s & Hrun & Ht & _ & _ & _ & _ & Hle).
  exists s. split; [exact Hrun|]. split; [exact Ht|exact Hle].
Defined.

Lemma forEach_stats_throw (rs : list json) :
  forall s0 e, forEach stats_step rs s0 = Throw e ->
               e = TypeError /\ In JNull rs.
Proof.
  induction rs as [|r rs IH]; intros s0 e Hrun; [discriminate|].
  cbn [forEach] in Hrun.
  assert (Hr : r = JNull \/ r <> JNull)
    by (destruct r; (left; reflexivity) || (right; discriminate)).
  destruct Hr as [->|Hr].
  - cbn in Hrun. injection Hrun as <-.
    split; [reflexivity|left; reflexivity].
  - destruct (stats_step_bump s0 r Hr) as [Hstep _].
    rewrite Hstep in Hrun. cbn [bind] in Hrun.
    destruct (IH _ _ Hrun) as [He Hin]. split; [exact He|right; exact Hin].
Qed.

Lemma stats_throw_null (rs : list json) :
  (exists e, stats rs = Throw e) <-> In JNull rs.
Proof.
  split.
  - intros [e He]. apply (forEach_stats_throw _ _ _ He).
  - intros Hin. destruct (stats rs) as [s|e] eqn:Hs; [|exists e; reflexivity].
    exfalso. unfold stats in Hs. revert Hs. generalize (mkStats 0 0 0 0 (len rs)).
    induction rs as [|r rs IH]; intros s0 Hs; [contradiction|].
    destruct Hin as [->|Hin]; [discriminate|].
    cbn [forEach] in Hs. destruct (stats_step s0 r); [|discriminate].
    exact (IH Hin _ Hs).
Qed.

Lemma stats_nonnull (rs : list json) :
  ~ In JNull rs ->
  exists s,
    stats rs = Ok s
    /\ total s = len rs
    /\ accurate s = count_status ACCURATE rs
    /\ paraphrased s = count_status PARAPHRASED rs
    /\ misattributed s = count_status MISATTRIBUTED rs
    /\ unverifiable s = count_status UNVERIFIABLE rs.
Proof.
  intros Hnn. unfold stats.
  destruct (forEach_stats_any rs (mkStats 0 0 0 0 (len rs)) Hnn)
    as (s & Hrun & Ht & Ha & Hp & Hm & Hu & _).
  exists s. cbn [accurate paraphrased misattributed unverifiable total] in *.
  repeat split; try assumption; lia.
Qed.

(** X6. Null items: the aggregator throws exactly when some item of the
    result set is null, and all it can throw is a TypeError. *)
Theorem stats_throws_iff_null (rs : list json) :
  (stats rs = Throw TypeError <-> In JNull rs)
  /\ (forall e, stats rs = Throw e -> e = TypeError).
Proof.
  assert (Hty : forall e, stats rs = Throw e -> e = TypeError).
  { intros e He. apply (forEach_stats_throw _ _ _ He). }
  split; [|exact Hty]. split.
  - intros He. apply stats_throw_null. exists TypeError. exact He.
  - intros Hin. apply stats_throw_null in Hin. destruct Hin as [e He].
    rewrite He. f_equal. apply Hty, He.
Qed.

Lemma count_status_app (lit : jsstring) (a b : list json) :
  count_status lit (a ++ b) = count_status lit a + count_status lit b.
Proof. unfold count_status. rewrite filter_app, len_app. reflexivity. Qed.

(** X7. Appending: the stats of a result set grown by an append are the
    stats of its two parts added up field by field. *)
Theorem stats_append (a b : list json) (sa sb : AnalysisStats) :
  stats a = Ok sa -> stats b = Ok sb ->
  stats (a ++ b)
  = Ok (mkStats (accurate sa + accurate sb) (paraphrased sa + paraphrased sb)
          (misattributed sa + misattributed sb)
          (unverifiable sa + unverifiable sb) (total sa + total sb)).
Proof.
  intros Ha Hb.
  assert (Hna : ~ In JNull a).
  { intros Hin. apply stats_throw_null in Hin. destruct Hin as [e He].
    congruence. }
  assert (Hnb : ~ In JNull b).
  { intros Hin. apply stats_throw_null in Hin. destruct Hin as [e He].
    congruence. }
  assert (Hnab : ~ In JNull (a ++ b)).
  { intros Hin. apply in_app_or in Hin. tauto. }
  destruct (stats_nonnull a Hna) as (sa' & Ha' & Hta & Haa & Hpa & Hma & Hua).
  destruct (stats_nonnull b Hnb) as (sb' & Hb' & Htb & Hab & Hpb & Hmb & Hub).
  destruct (stats_nonnull _ Hnab) as (s & Hs & Ht & Hac & Hp & Hm & Hu).
  rewrite Ha in Ha'. injection Ha' as <-.
  rewrite Hb in Hb'. injection Hb' as <-.
  rewrite Hs. f_equal. destruct s as [x1 x2 x3 x4 x5].
  cbn [accurate paraphrased misattributed unverifiable total] in *.
  rewrite !count_status_app in *. rewrite len_app in Ht.
  f_equal; lia.
Qed.

Lemma stats_append_witness :
  stats [item_json sample_item] = Ok (mkStats 1 0 0 0 1)
  /\ stats [item_json sample_item_2] = Ok (mkStats 0 0 0 1 1)
  /\ stats ([item_json sample_item] ++ [item_json sample_item_2])
     = Ok (mkStats 1 0 0 1 2).
Proof.
  split; [reflexivity|]. split; [reflexivity|].
  exact (stats_append [item_json sample_item] [item_json sample_item_2]
           _ _ eq_refl eq_refl).
Defined.

(** ** Oracle adapter: failures and fences *)

(** X8. Failures of the adapter: [verifyManuscript] throws in two cases
    only, the missing key (the configuration error, whatever the oracle
    would answer) and the rejected call (the rejection itself); every
    response, parsable or not, gives a value. *)
Theorem verifyManuscript_throws_iff (oracle : jsstring -> oracle_outcome)
    (txt key : jsstring) (e : exn) :
  verifyManuscript oracle txt key = Throw e
  <-> (key = []
       /\ e = Error (of_string "API Configuration Error: Missing API Key."))
      \/ (key <> [] /\ oracle txt = Rejected e).
Proof.
  unfold verifyManuscript. destruct key as [|k key].
  - cbn. split.
    + intros H. injection H as <-. left. split; reflexivity.
    + intros [[_ ->]|[H _]]; [reflexivity|congruence].
  - cbn [getGeminiClient bind]. split.
    + intros H. right. split; [discriminate|].
      destruct (oracle txt) as [e'|[[|c t]|]]; try discriminate.
      * congruence.
      * destruct (JSON_parse (cleanJson (c :: t))); discriminate.
    + intros [[H _]|[_ ->]]; [discriminate|reflexivity].
Qed.

Lemma dropWhile_blank_app (a b : jsstring) :
  blank a -> dropWhile is_space (a ++ b) = dropWhile is_space b.
Proof.
  induction 1 as [|c a Hc _ IH]; [reflexivity|].
  cbn [app dropWhile]. rewrite Hc. exact IH.
Qed.

Lemma dropWhile_head (s : jsstring) :
  is_space (hd 0%N s) = false -> dropWhile is_space s = s.
Proof. destruct s as [|c s]; [reflexivity|]. cbn. intros ->. reflexivity. Qed.

Lemma dropWhileEnd_blank (b : jsstring) :
  blank b -> dropWhileEnd is_space b = [].
Proof.
  induction 1 as [|c b Hc _ IH]; [reflexivity|].
  cbn [dropWhileEnd]. rewrite IH, Hc. reflexivity.
Qed.

Lemma dropWhileEnd_app_blank (a b : jsstring) :
  blank b -> dropWhileEnd is_space (a ++ b) = dropWhileEnd is_space a.
Proof.
  intros Hb. induction a as [|x a IH].
  - apply dropWhileEnd_blank, Hb.
  - cbn [app dropWhileEnd]. rewrite IH. reflexivity.
Qed.

Lemma dropWhileEnd_app_keep (a b : jsstring) :
  dropWhileEnd is_space b <> [] ->
  dropWhileEnd is_space (a ++ b) = a ++ dropWhileEnd is_space b.
Proof.
  intros Hb. induction a as [|x a IH]; [reflexivity|].
  cbn [app dropWhileEnd]. rewrite IH.
  destruct (a ++ dropWhileEnd is_space b) eqn:E; [|reflexivity].
  apply app_eq_nil in E. tauto.
Qed.

Lemma dropWhileEnd_last (s : jsstring) :
  s <> [] -> is_space (last s 0%N) = false -> dropWhileEnd is_space s = s.
Proof.
  induction s as [|x s IH]; intros Hne Hlast; [congruence|].
  destruct s as [|y s].
  - cbn in *. rewrite Hlast. reflexivity.
  - specialize (IH ltac:(discriminate) Hlast).
    change (dropWhileEnd is_space (x :: y :: s))
      with (match dropWhileEnd is_space (y :: s) with
            | [] => if is_space x then [] else [x]
            | r => x :: r
            end).
    rewrite IH. reflexivity.
Qed.

Lemma startsWith_app (lit r : jsstring) : startsWith (lit ++ r) lit = true.
Proof.
  unfold startsWith. rewrite firstn_app_exact. apply jsstring_eqb_eq.
  reflexivity.
Qed.

Lemma endsWith_app (r lit : jsstring) : endsWith (r ++ lit) lit = true.
Proof.
  unfold endsWith. rewrite length_app.
  replace (List.length r + List.length lit - List.length lit)%nat
    with (List.length r) by lia.
  rewrite skipn_app_exact. apply andb_true_iff. split.
  - apply Nat.leb_le. lia.
  - apply jsstring_eqb_eq. reflexivity.
Qed.

Lemma strip_trailing_fence_app (r : jsstring) :
  strip_trailing_fence (r ++ fence) = dropWhileEnd is_space r.
Proof.
  unfold strip_trailing_fence. rewrite endsWith_app, length_app.
  replace (List.length r + List.length fence - List.length fence)%nat
    with (List.length r) by lia.
  rewrite firstn_app_exact. reflexivity.
Qed.

Lemma strip_leading_app (lit r : jsstring) :
  strip_leading lit (lit ++ r) = dropWhile is_space r.
Proof.
  unfold strip_leading. rewrite startsWith_app, skipn_app_exact. reflexivity.
Qed.

Lemma trim_padded (lead core trail : jsstring) :
  blank lead -> blank trail -> tight core ->
  trim (lead ++ core ++ trail) = core.
Proof.
  intros Hl Ht (Hne & Hhd & Hlast). unfold trim.
  rewrite dropWhile_blank_app by assumption.
  rewrite dropWhile_head.
  - rewrite dropWhileEnd_app_blank by assumption.
    apply dropWhileEnd_last; assumption.
  - destruct core; [congruence|exact Hhd].
Qed.

Lemma last_app_nonempty (a b : jsstring) (d : N) :
  b <> [] -> last (a ++ b) d = last b d.
Proof.
  intros Hb. induction a as [|x a IH]; [reflexivity|].
  cbn [app]. destruct (a ++ b) eqn:E.
  - apply app_eq_nil in E. tauto.
  - rewrite <- IH. reflexivity.
Qed.

Lemma fenced_tight (open r : jsstring) :
  open = fence \/ open = fence_json -> tight (open ++ r ++ fence).
Proof.
  intros Hopen. split; [|split].
  - destruct Hopen as [-> | ->]; discriminate.
  - destruct Hopen as [-> | ->]; reflexivity.
  - rewrite app_assoc, last_app_nonempty by discriminate. reflexivity.
Qed.

Lemma body_after_fence (ws1 body ws2 : jsstring) :
  blank ws1 -> blank ws2 -> tight body ->
  strip_trailing_fence (dropWhile is_space (ws1 ++ body ++ ws2 ++ fence))
  = body.
Proof.
  intros H1 H2 (Hne & Hhd & Hlast).
  rewrite dropWhile_blank_app by assumption.
  rewrite dropWhile_head by (destruct body; [congruence|exact Hhd]).
  rewrite app_assoc, strip_trailing_fence_app.
  rewrite dropWhileEnd_app_blank by assumption.
  apply dropWhileEnd_last; assumption.
Qed.

Lemma cleanJson_cases (lead ws1 body ws2 trail : jsstring) :
  blank lead -> blank ws1 -> blank ws2 -> blank trail -> tight body ->
  cleanJson (lead ++ (fence_json ++ (ws1 ++ body ++ ws2) ++ fence) ++ trail)
    = body
  /\ (hd 0%N (ws1 ++ body) <> LOWER_J ->
      cleanJson (lead ++ (fence ++ (ws1 ++ body ++ ws2) ++ fence) ++ trail)
      = body)
  /\ (hd 0%N body <> BACKTICK -> cleanJson (lead ++ body ++ trail) = body).
Proof.
  intros Hl H1 H2 Ht Hb. split; [|split].
  - unfold cleanJson.
    rewrite (trim_padded lead _ trail Hl Ht
               (fenced_tight fence_json _ (or_intror eq_refl))).
    rewrite startsWith_app, strip_leading_app.
    rewrite <- !app_assoc. apply body_after_fence; assumption.
  - intros Hj. unfold cleanJson.
    rewrite (trim_padded lead _ trail Hl Ht
               (fenced_tight fence _ (or_introl eq_refl))).
    assert (Hnot : startsWith (fence ++ (ws1 ++ body ++ ws2) ++ fence)
                     fence_json = false).
    { rewrite <- !app_assoc in *.
      destruct (ws1 ++ body ++ ws2 ++ fence) as [|x r] eqn:E.
      - destruct Hb as (Hne & _). apply app_eq_nil in E.
        destruct E as [_ E]. apply app_eq_nil in E. tauto.
      - assert (Hx : x = hd 0%N (ws1 ++ body)).
        { destruct ws1 as [|w ws1].
          - destruct body as [|b body]; [destruct Hb; congruence|].
            cbn in E. injection E as <- _. reflexivity.
          - cbn in E. injection E as <- _. reflexivity. }
        unfold startsWith. cbn.
        destruct (N.eqb_spec x 106) as [->|]; [|reflexivity].
        exfalso. apply Hj. symmetry. exact Hx. }
    rewrite Hnot, startsWith_app, strip_leading_app.
    rewrite <- !app_assoc. apply body_after_fence; assumption.
  - intros Hq. unfold cleanJson.
    rewrite (trim_padded lead body trail Hl Ht Hb).
    destruct Hb as (Hne & _). destruct body as [|b body]; [congruence|].
    cbn in Hq.
    assert (H1' : startsWith (b :: body) fence_json = false).
    { unfold startsWith. cbn.
      destruct (N.eqb_spec b 96) as [->|]; [|reflexivity].
      exfalso. apply Hq. reflexivity. }
    assert (H2' : startsWith (b :: body) fence = false).
    { unfold startsWith. cbn.
      destruct (N.eqb_spec b 96) as [->|]; [|reflexivity].
      exfalso. apply Hq. reflexivity. }
    rewrite H1', H2'. reflexivity.
Qed.

(** ** Oracle adapter: decoding a well-formed response *)

















(** X9. Fence stripping: a body that neither begins nor ends with
    whitespace is recovered from a response that wraps it in a json fence
    or, when the first unit after the opening fence is not the letter j,
    in a plain fence, with any whitespace around the fences and around
    the body; a body that does not begin with a backtick is recovered from
    a response that only pads it with whitespace. *)
Theorem cleanJson_unwraps (lead ws1 body ws2 trail : jsstring) :
  blank lead -> blank ws1 -> blank ws2 -> blank trail -> tight body ->
  cleanJson (lead ++ (fence_json ++ (ws1 ++ body ++ ws2) ++ fence) ++ trail)
    = body
  /\ (hd 0%N (ws1 ++ body) <> LOWER_J ->
      cleanJson (lead ++ (fence ++ (ws1 ++ body ++ ws2) ++ fence) ++ trail)
      = body)
  /\ (hd 0%N body <> BACKTICK -> cleanJson (lead ++ body ++ trail) = body).
Proof. apply cleanJson_cases. Qed.

Lemma cleanJson_unwraps_witness :
  blank [32%N] /\ blank [NL] /\ tight bogus_response
  /\ cleanJson ([32%N] ++ (fence_json ++ ([NL] ++ bogus_response ++ [NL])
                           ++ fence) ++ [NL])
     = bogus_response.
Proof.
  assert (Hs : blank [32%N]) by (repeat constructor).
  assert (Hn : blank [NL]) by (repeat constructor).
  assert (Ht : tight bogus_response)
    by (split; [discriminate|split; reflexivity]).
  split; [exact Hs|]. split; [exact Hn|]. split; [exact Ht|].
  exact (proj1 (cleanJson_unwraps [32%N] [NL] bogus_response [NL] [NL]
                  Hs Hn Hn Hn Ht)).
Defined.

Lemma verifyManuscript_throws_iff_witness :
  sample_key <> []
  /\ oracle_down 0%nat sample_text = Rejected (ApiError 503)
  /\ verifyManuscript (oracle_down 0%nat) sample_text sample_key
     = Throw (ApiError 503).
Proof.
  split; [discriminate|]. split; [reflexivity|].
  apply (proj2 (verifyManuscript_throws_iff (oracle_down 0%nat) sample_text
                  sample_key (ApiError 503))).
  right. split; [discriminate|reflexivity].
Defined.






(** ** Exporter: reading back, and items of any shape *)

Lemma read_quoted_field (s : jsstring) :
  forall rest, not_quote_first rest ->
    read_quoted (double_quotes s ++ DQ :: rest) = Some (s, rest).
Proof.
  induction s as [|c s IH]; intros rest Hrest.
  - cbn. destruct rest as [|c2 r]; [reflexivity|].
    cbn in Hrest. destruct (N.eqb_spec c2 DQ); [contradiction|reflexivity].
  - cbn [double_quotes]. destruct (N.eqb_spec c DQ) as [->|Hc].
    + cbn [app read_quoted]. rewrite !N.eqb_refl, (IH rest Hrest). reflexivity.
    + cbn [app read_quoted]. destruct (N.eqb_spec c DQ); [contradiction|].
      rewrite (IH rest Hrest). reflexivity.
Qed.

Lemma read_field_spec (s rest : jsstring) :
  not_quote_first rest -> read_field (spec_field s ++ rest) = Some (s, rest).
Proof.
  intros Hrest. unfold spec_field. rewrite <- !app_assoc. cbn [app read_field].
  rewrite N.eqb_refl. apply read_quoted_field, Hrest.
Qed.

Lemma read_comma_field_spec (s rest : jsstring) :
  not_quote_first rest ->
  read_comma_field (COMMA ++ spec_field s ++ rest) = Some (s, rest).
Proof. intros Hrest. cbn. apply (read_field_spec s rest Hrest). Qed.

Lemma read_row_spec (it : VerificationItem) (rest : jsstring) :
  not_quote_first rest -> read_row (spec_row it ++ rest) = Some (it, rest).
Proof.
  intros Hrest. unfold spec_row, read_row. rewrite <- !app_assoc.
  rewrite read_field_spec by (cbn; discriminate).
  rewrite read_comma_field_spec by (cbn; discriminate).
  rewrite read_comma_field_spec by (cbn; discriminate).
  rewrite read_comma_field_spec by (cbn; discriminate).
  rewrite read_comma_field_spec by exact Hrest.
  destruct it. reflexivity.
Qed.

Lemma rows_not_quote_first (its : list VerificationItem) :
  not_quote_first (flat_map (fun it => NL :: spec_row it) its).
Proof. destruct its; cbn; [exact I|discriminate]. Qed.

Lemma read_rows_spec (its : list VerificationItem) :
  forall fuel, (List.length its <= fuel)%nat ->
    read_rows fuel (flat_map (fun it => NL :: spec_row it) its) = Some its.
Proof.
  induction its as [|it its IH]; intros fuel Hfuel.
  - destruct fuel; reflexivity.
  - destruct fuel as [|fuel]; [simpl in Hfuel; lia|].
    cbn [flat_map app read_rows]. rewrite N.eqb_refl.
    rewrite read_row_spec by apply rows_not_quote_first.
    rewrite IH by (simpl in Hfuel; lia). reflexivity.
Qed.

Lemma rows_length (its : list VerificationItem) :
  (List.length its
   <= List.length (flat_map (fun it => NL :: spec_row it) its))%nat.
Proof.
  induction its as [|it its IH]; [simpl; lia|].
  cbn [flat_map]. rewrite length_app. simpl. lia.
Qed.

Lemma read_csv_spec (its : list VerificationItem) :
  read_csv (header_row ++ flat_map (fun it => NL :: spec_row it) its)
  = Some its.
Proof.
  unfold read_csv. rewrite startsWith_app, skipn_app_exact.
  apply read_rows_spec. rewrite length_app.
  pose proof (rows_length its). lia.
Qed.

Lemma export_typed_items (its : list VerificationItem) :
  handleExportCSV (map item_json its) = Ok (csv_lines header_row its).
Proof.
  destruct its as [|it its]; [reflexivity|].
  unfold handleExportCSV. cbn [map]. rewrite <- (map_cons item_json).
  rewrite mapM_csv_row. cbn [bind]. unfold csv_lines.
  rewrite join_lines, flat_map_concat_map, map_map, <- flat_map_concat_map.
  reflexivity.
Qed.

(** X11. Lossless export: the text exported for items with string fields
    reads back, field by field, to the same items; hence two result sets
    with the same export are the same result set. *)
Theorem handleExportCSV_lossless :
  (forall its csv,
     handleExportCSV (map item_json its) = Ok (Some csv) ->
     read_csv csv = Some its)
  /\ (forall a b,
        handleExportCSV (map item_json a) = handleExportCSV (map item_json b) ->
        a = b).
Proof.
  assert (Hread : forall its csv,
            handleExportCSV (map item_json its) = Ok (Some csv) ->
            read_csv csv = Some its).
  { intros its csv H. rewrite export_typed_items in H.
    destruct its as [|it its]; [discriminate|].
    assert (Hcsv : csv = header_row
                         ++ flat_map (fun x => NL :: spec_row x) (it :: its))
      by (unfold csv_lines in H; congruence).
    rewrite Hcsv. apply read_csv_spec. }
  split; [exact Hread|].
  intros a b Hab.
  destruct (handleExportCSV (map item_json a)) as [[csv|]|e] eqn:Ha.
  - pose proof (Hread a csv Ha) as Ra.
    pose proof (Hread b csv (eq_sym Hab)) as Rb. congruence.
  - rewrite export_typed_items in Ha.
    symmetry in Hab. rewrite export_typed_items in Hab.
    destruct a; [|discriminate]. destruct b; [reflexivity|discriminate].
  - rewrite export_typed_items in Ha. discriminate.
Qed.

Lemma handleExportCSV_lossless_witness :
  exists csv,
    handleExportCSV (map item_json [sample_item; sample_item_2])
    = Ok (Some csv)
    /\ read_csv csv = Some [sample_item; sample_item_2].
Proof.
  destruct (handleExportCSV (map item_json [sample_item; sample_item_2]))
    as [[csv|]|e] eqn:H; try discriminate.
  exists csv. split; [reflexivity|].
  exact (proj1 handleExportCSV_lossless _ csv H).
Defined.

Lemma escape_cases (v : jsval) :
  escape v = if exportable_value v then Ok (spec_field (string_of v))
             else Throw TypeError.
Proof.
  destruct v as [[|b|n|s|xs|fs]|]; try reflexivity.
  - destruct b; reflexivity.
  - unfold escape, exportable_value. cbn [truthy].
    destruct (number_is_zero n); reflexivity.
  - change (exportable_value (Some (JString s))) with
      (negb (truthy (Some (JString s))) || true).
    rewrite orb_true_r. apply escape_string.
Qed.

Lemma get_prop_field_value (r : json) (k : jsstring) :
  r <> JNull -> get_prop r k = Ok (field_value r k).
Proof.
  intros Hr. unfold field_value.
  destruct (get_prop_nonnull r k Hr) as [v ->]. reflexivity.
Qed.

Lemma csv_row_cases (r : json) :
  csv_row r
  = if exportableb r
    then Ok (join COMMA
               (map (fun k => spec_field (string_of (field_value r k)))
                    item_keys))
    else Throw TypeError.
Proof.
  assert (Hr : r = JNull \/ r <> JNull)
    by (destruct r; (left; reflexivity) || (right; discriminate)).
  destruct Hr as [->|Hr]; [reflexivity|].
  assert (Hexp : exportableb r
                 = forallb (fun k => exportable_value (field_value r k))
                     item_keys)
    by (destruct r; congruence || reflexivity).
  rewrite Hexp. unfold csv_row, item_keys.
  rewrite !(get_prop_field_value r _ Hr). cbn [bind forallb map].
  rewrite !escape_cases.
  destruct (exportable_value (field_value r k_location)); [|reflexivity].
  destruct (exportable_value (field_value r k_quote_text)); [|reflexivity].
  destruct (exportable_value (field_value r k_claimed_source)); [|reflexivity].
  destruct (exportable_value (field_value r k_status)); [|reflexivity].
  destruct (exportable_value (field_value r k_notes)); reflexivity.
Qed.

Lemma mapM_csv_row_cases (rs : list json) :
  (forallb exportableb rs = true -> exists rows, mapM csv_row rs = Ok rows)
  /\ (forallb exportableb rs = false -> mapM csv_row rs = Throw TypeError).
Proof.
  induction rs as [|r rs [IHok IHbad]].
  - split; [intros _; eexists; reflexivity|discriminate].
  - cbn [forallb mapM]. rewrite csv_row_cases.
    destruct (exportableb r); cbn [andb bind].
    + split.
      * intros H. destruct (IHok H) as [rows ->]. eexists. reflexivity.
      * intros H. rewrite (IHbad H). reflexivity.
    + split; [discriminate|reflexivity].
Qed.

(** X12. A row for an item of any shape: the export of an item throws a
    TypeError when the item is null or one of its five fields is a true
    boolean, a non-zero number, an array or an object; otherwise every
    field that is missing, null, false, zero or the empty string gives an
    empty quoted field, and every string gives its quoted text. *)
Theorem csv_row_any_item (r : json) :
  csv_row r
  = if exportableb r
    then Ok (join COMMA
               (map (fun k => spec_field (string_of (field_value r k)))
                    item_keys))
    else Throw TypeError.
Proof. apply csv_row_cases. Qed.

(** X13. Failure of the export: the export of a result set returns when
    every item can be exported, and throws a TypeError, downloading
    nothing, as soon as one item cannot. *)
Theorem handleExportCSV_throws_iff (rs : list json) :
  (forallb exportableb rs = true -> exists out, handleExportCSV rs = Ok out)
  /\ (forallb exportableb rs = false -> handleExportCSV rs = Throw TypeError).
Proof.
  destruct (mapM_csv_row_cases rs) as [Hok Hbad].
  destruct rs as [|r rs]; [split; [intros _; eexists; reflexivity|discriminate]|].
  unfold handleExportCSV. split.
  - intros H. destruct (Hok H) as [rows ->]. eexists. reflexivity.
  - intros H. rewrite (Hbad H). reflexivity.
Qed.

Lemma handleExportCSV_throws_iff_witness :
  forallb exportableb [item_json sample_item; JNull] = false
  /\ handleExportCSV [item_json sample_item; JNull] = Throw TypeError.
Proof.
  split; [reflexivity|].
  exact (proj2 (handleExportCSV_throws_iff [item_json sample_item; JNull])
           eq_refl).
Defined.

(** ** Orchestrator: runs that do not start, and runs with any oracle *)

Lemma trim_blank (s : jsstring) : blank s -> trim s = [].
Proof.
  intros Hs. unfold trim.
  rewrite <- (app_nil_r s), dropWhile_blank_app by exact Hs. reflexivity.
Qed.

(** X14. Runs that do not start: without a key, or with a text that is
    empty or all whitespace, the handler only sets its error message (the
    missing key first); nothing is sent to the adapter, and the result
    set, the progress and the processing flag stay as they were. *)
Theorem handleAnalyze_not_started
    (oracle : nat -> jsstring -> oracle_outcome) (st : AppState) :
  (apiKey st = [] ->
   handleAnalyze oracle st = mkRun (setError (Some msg_no_key) st) [] Returned)
  /\ (apiKey st <> [] -> blank (inputText st) ->
      handleAnalyze oracle st
      = mkRun (setError (Some msg_no_text) st) [] Returned).
Proof.
  unfold handleAnalyze. split.
  - intros ->. reflexivity.
  - intros Hkey Hblank. destruct (apiKey st); [congruence|].
    rewrite (trim_blank _ Hblank). reflexivity.
Qed.

Lemma handleAnalyze_not_started_witness :
  apiKey (mkState (of_string "   ") sample_key [bogus_item] false None None)
    <> []
  /\ blank (inputText (mkState (of_string "   ") sample_key [bogus_item]
                         false None None))
  /\ handleAnalyze oracle_bogus
       (mkState (of_string "   ") sample_key [bogus_item] false None None)
     = mkRun (mkState (of_string "   ") sample_key [bogus_item] false
                (Some msg_no_text) None) [] Returned.
Proof.
  assert (Hb : blank (of_string "   ")) by (repeat constructor).
  split; [discriminate|]. split; [exact Hb|].
  exact (proj2 (handleAnalyze_not_started oracle_bogus
                  (mkState (of_string "   ") sample_key [bogus_item] false
                     None None)) ltac:(discriminate) Hb).
Defined.

Lemma skipn_cons_inv {A} (l : list A) (i : nat) (x : A) (rest : list A) :
  skipn i l = x :: rest -> nth_error l i = Some x /\ skipn (S i) l = rest.
Proof.
  intros H. split.
  - rewrite <- (Nat.add_0_r i), <- nth_error_skipn, H. reflexivity.
  - change (S i) with (1 + i)%nat. rewrite <- skipn_skipn, H. reflexivity.
Qed.

Section AnyOracle.

Variables T key : jsstring.
Variable oracle : nat -> jsstring -> oracle_outcome.
Variable chunks : list Chunk.

(** Whatever the oracle does, the loop completes some chunks in order and
    then either ends or is left by the call on the next chunk, which
    threw; a response that cannot be spread stops nothing. *)
Lemma process_chunks_any (rest : list Chunk) :
  forall (i : nat) (st : AppState) (l : list event),
    skipn i chunks = rest ->
    exists k exit st',
      (k <= List.length rest)%nat
      /\ (loop_caught exit = None -> k = List.length rest)
      /\ (forall e, loop_caught exit = Some e ->
            (k < List.length rest)%nat
            /\ verifyManuscript (oracle (i + k))
                 (chunk_content T chunks (i + k)) key = Throw e)
      /\ error st' = error st
      /\ isProcessing st' = isProcessing st
      /\ process_chunks T key oracle (len chunks) i rest st l
         = (exit, st',
            l ++ completed_events T chunks i k
              ++ last_call exit (chunk_content T chunks (i + k))).
Proof.
  induction rest as [|c rest IH]; intros i st l Hskip.
  - exists 0%nat, LoopDone, st. cbn [process_chunks completed_events seq
                                     flat_map last_call loop_caught
                                     List.length].
    rewrite !app_nil_r. repeat split; (lia || congruence || discriminate).
  - destruct (skipn_cons_inv _ _ _ _ Hskip) as [Hnth Hskip'].
    cbn [process_chunks].
    rewrite <- (chunk_content_nth T chunks i c Hnth).
    destruct (verifyManuscript (oracle i) (chunk_content T chunks i) key)
      as [v|e] eqn:Hv.
    + destruct (spread v) as [items|e] eqn:Hsp.
      * destruct (IH (S i)
                    (setProgress (Some (Progress.mk (Z.of_nat i + 1)
                                          (len chunks)))
                       (setResults (results st ++ items) st))
                    ((l ++ [EvVerify (chunk_content T chunks i)])
                     ++ [EvProgress (Some (Progress.mk (Z.of_nat i + 1)
                                             (len chunks)))])
                    Hskip')
          as (k & exit & st' & Hk & Hdone & Hstop & He & Hp & Hrun).
        exists (S k), exit, st'. rewrite Hrun.
        replace (i + S k)%nat with (S i + k)%nat by lia.
        cbn [List.length completed_events seq flat_map].
        split; [lia|]. split; [intros H; rewrite (Hdone H); reflexivity|].
        split; [intros e H; destruct (Hstop e H); split; [lia|assumption]|].
        split; [exact He|]. split; [exact Hp|].
        unfold completed_events. rewrite <- !app_assoc. reflexivity.
      * destruct (IH (S i)
                    (setProgress (Some (Progress.mk (Z.of_nat i + 1)
                                          (len chunks))) st)
                    ((l ++ [EvVerify (chunk_content T chunks i)])
                     ++ [EvProgress (Some (Progress.mk (Z.of_nat i + 1)
                                             (len chunks)))])
                    Hskip')
          as (k & exit & st' & Hk & Hdone & Hstop & He & Hp & Hrun).
        exists (S k), (LoopUpdaterThrew e (loop_caught exit)),
          (setResults (results st) st').
        rewrite Hrun.
        replace (i + S k)%nat with (S i + k)%nat by lia.
        cbn [List.length completed_events seq flat_map loop_caught].
        split; [lia|]. split; [intros H; rewrite (Hdone H); reflexivity|].
        split; [intros e' H; destruct (Hstop e' H); split; [lia|assumption]|].
        split; [exact He|]. split; [exact Hp|].
        unfold completed_events, last_call. cbn [loop_caught].
        rewrite <- !app_assoc. reflexivity.
    + exists 0%nat, (LoopThrew e), st.
      rewrite Nat.add_0_r. cbn [completed_events seq flat_map last_call app
                                loop_caught List.length].
      split; [lia|]. split; [discriminate|].
      split; [intros e' H; injection H as <-; split; [lia|exact Hv]|].
      repeat split.
Qed.

End AnyOracle.

(** The shape of every run that starts: the calls completed, the call
    that threw if there is one, and the [finally] block, whatever the
    responses could be spread into. *)
Lemma handleAnalyze_shape (oracle : nat -> jsstring -> oracle_outcome)
    (st : AppState) (chunks : list Chunk) :
  apiKey st <> [] -> trim (inputText st) <> [] ->
  createChunks (inputText st) CHUNK_SIZE = Some chunks ->
  exists k exit,
    (k <= List.length chunks)%nat
    /\ (loop_caught exit = None -> k = List.length chunks)
    /\ (forall e, loop_caught exit = Some e ->
          (k < List.length chunks)%nat
          /\ verifyManuscript (oracle k)
               (chunk_content (inputText st) chunks k) (apiKey st)
             = Throw e)
    /\ log (handleAnalyze oracle st)
       = ([EvProgress None]
          ++ [EvProgress (Some (Progress.mk 0 (len chunks)))])
         ++ (completed_events (inputText st) chunks 0 k
             ++ last_call exit (chunk_content (inputText st) chunks k))
         ++ [EvProgress None]
    /\ progress (final (handleAnalyze oracle st)) = None
    /\ isProcessing (final (handleAnalyze oracle st)) = false
    /\ error (final (handleAnalyze oracle st))
       = match loop_caught exit with
         | Some _ => Some msg_failed
         | None => None
         end.
Proof.
  intros Hkey Htext Hchunks.
  rewrite (handleAnalyze_started oracle st chunks Hkey Htext Hchunks).
  match goal with
  | |- context [process_chunks ?T ?key oracle _ 0 chunks ?s0 ?l0] =>
      destruct (process_chunks_any T key oracle chunks chunks 0 s0 l0 eq_refl)
        as (k & exit & st' & Hk & Hdone & Hstop & Herr & _ & Hrun)
  end.
  rewrite Hrun. cbn [Nat.add] in *.
  exists k, exit. split; [exact Hk|]. split; [exact Hdone|].
  split; [exact Hstop|].
  cbn [error setProgress setResults setIsProcessing setError] in Herr.
  destruct exit as [|e|e [e'|]];
    unfold finish, updater_threw;
    cbn [log ended final progress isProcessing error setProgress
         setIsProcessing setError loop_caught];
    rewrite <- ?app_assoc; repeat split; try reflexivity; exact Herr.
Qed.

(** X15. Order of the calls, for any oracle: the texts handed to the
    adapter in a run are the annotated chunks number 0, 1, ..., m-1 for
    some m not above the number of chunks: document order, no chunk
    twice, none skipped.  Only a call that throws ends the calls early:
    when no call throws, every chunk is handed to the adapter, whatever
    the responses parse to (an array, a string, or a value that the
    update of the result set cannot spread). *)
Theorem handleAnalyze_call_order
    (oracle : nat -> jsstring -> oracle_outcome) (st : AppState)
    (chunks : list Chunk) :
  apiKey st <> [] -> trim (inputText st) <> [] ->
  createChunks (inputText st) CHUNK_SIZE = Some chunks ->
  exists m,
    (m <= List.length chunks)%nat
    /\ verified (log (handleAnalyze oracle st))
       = map (chunk_content (inputText st) chunks) (seq 0 m)
    /\ ((forall j e, (j < List.length chunks)%nat ->
           verifyManuscript (oracle j)
             (chunk_content (inputText st) chunks j) (apiKey st)
           <> Throw e) ->
        m = List.length chunks).
Proof.
  intros Hkey Htext Hchunks.
  destruct (handleAnalyze_shape oracle st chunks Hkey Htext Hchunks)
    as (k & exit & Hk & Hdone & Hstop & Hlog & _).
  rewrite Hlog, !verified_app, verified_completed. unfold last_call.
  destruct (loop_caught exit) as [e|].
  - destruct (Hstop e eq_refl) as [Hlt Hthrow].
    exists (S k). split; [exact Hlt|]. split.
    + rewrite seq_S, map_app. cbn. rewrite !app_nil_r. reflexivity.
    + intros Hnone. destruct (Hnone k e Hlt Hthrow).
  - exists k. split; [exact Hk|]. split.
    + cbn. rewrite !app_nil_r. reflexivity.
    + intros _. exact (Hdone eq_refl).
Qed.

(** X16. Progress, for any oracle: the values reported in a run are null,
    then current = 0, 1, ..., k with total = the number of chunks, for
    some k not above that number, then null again from the [finally]
    block; so 0 <= current <= total always and current never decreases.
    Every run that starts, whatever the calls return or throw, leaves the
    progress null and the processing flag off. *)
Theorem handleAnalyze_progress_invariant
    (oracle : nat -> jsstring -> oracle_outcome) (st : AppState)
    (chunks : list Chunk) :
  apiKey st <> [] -> trim (inputText st) <> [] ->
  createChunks (inputText st) CHUNK_SIZE = Some chunks ->
  exists k,
    (k <= List.length chunks)%nat
    /\ reported (log (handleAnalyze oracle st))
       = [None]
         ++ map (fun j => Some (Progress.mk (Z.of_nat j) (len chunks)))
                (seq 0 (S k))
         ++ [None]
    /\ progress (final (handleAnalyze oracle st)) = None
    /\ isProcessing (final (handleAnalyze oracle st)) = false
    /\ ((forall j e, (j < List.length chunks)%nat ->
           verifyManuscript (oracle j)
             (chunk_content (inputText st) chunks j) (apiKey st)
           <> Throw e) ->
        k = List.length chunks).
Proof.
  intros Hkey Htext Hchunks.
  destruct (handleAnalyze_shape oracle st chunks Hkey Htext Hchunks)
    as (k & exit & Hk & Hdone & Hstop & Hlog & Hprog & Hproc & _).
  exists k. split; [exact Hk|]. split; [|split; [exact Hprog|split]].
  - rewrite Hlog, !reported_app, reported_completed.
    rewrite <- progress_values_shift. unfold last_call.
    destruct (loop_caught exit); cbn; rewrite ?app_nil_r; reflexivity.
  - exact Hproc.
  - intros Hnone. destruct (loop_caught exit) as [e|] eqn:Hc.
    + destruct (Hstop e eq_refl) as [Hlt Hthrow].
      destruct (Hnone k e Hlt Hthrow).
    + exact (Hdone eq_refl).
Qed.

Lemma oracle_object_returns (j : nat) (txt : jsstring) :
  verifyManuscript (oracle_object j) txt (apiKey long_state)
  = Ok (JObject []).
Proof. reflexivity. Qed.

Lemma small_state_chunks :
  createChunks (inputText small_state) CHUNK_SIZE
  = Some [mkChunk (inputText small_state) 0].
Proof. reflexivity. Qed.

Lemma handleAnalyze_call_order_witness :
  exists chunks,
    apiKey long_state <> [] /\ trim (inputText long_state) <> []
    /\ createChunks (inputText long_state) CHUNK_SIZE = Some chunks
    /\ (forall j e, (j < List.length chunks)%nat ->
          verifyManuscript (oracle_object j)
            (chunk_content (inputText long_state) chunks j)
            (apiKey long_state)
          <> Throw e)
    /\ verified (log (handleAnalyze oracle_object long_state))
       = map (chunk_content (inputText long_state) chunks) (seq 0 2).
Proof.
  destruct long_text_chunks as (chunks & Hchunks & Hlen).
  exists chunks.
  assert (Hkey : apiKey long_state <> []) by discriminate.
  assert (Hnone : forall j e, (j < List.length chunks)%nat ->
            verifyManuscript (oracle_object j)
              (chunk_content (inputText long_state) chunks j)
              (apiKey long_state)
            <> Throw e).
  { intros j e _. rewrite oracle_object_returns. discriminate. }
  split; [exact Hkey|]. split; [exact long_text_not_blank|].
  split; [exact Hchunks|]. split; [exact Hnone|].
  destruct (handleAnalyze_call_order oracle_object long_state chunks Hkey
              long_text_not_blank Hchunks) as (m & _ & Hcalls & Hall).
  rewrite Hcalls, (Hall Hnone), Hlen. reflexivity.
Defined.

Lemma handleAnalyze_progress_invariant_witness :
  exists chunks,
    apiKey long_state <> [] /\ trim (inputText long_state) <> []
    /\ createChunks (inputText long_state) CHUNK_SIZE = Some chunks
    /\ (forall j e, (j < List.length chunks)%nat ->
          verifyManuscript (oracle_object j)
            (chunk_content (inputText long_state) chunks j)
            (apiKey long_state)
          <> Throw e)
    /\ reported (log (handleAnalyze oracle_object long_state))
       = [None; Some (Progress.mk 0 2); Some (Progress.mk 1 2);
          Some (Progress.mk 2 2); None]
    /\ progress (final (handleAnalyze oracle_object long_state)) = None
    /\ isProcessing (final (handleAnalyze oracle_object long_state))
       = false.
Proof.
  destruct long_text_chunks as (chunks & Hchunks & Hlen).
  exists chunks.
  assert (Hkey : apiKey long_state <> []) by discriminate.
  assert (Hnone : forall j e, (j < List.length chunks)%nat ->
            verifyManuscript (oracle_object j)
              (chunk_content (inputText long_state) chunks j)
              (apiKey long_state)
            <> Throw e).
  { intros j e _. rewrite oracle_object_returns. discriminate. }
  split; [exact Hkey|]. split; [exact long_text_not_blank|].
  split; [exact Hchunks|]. split; [exact Hnone|].
  destruct (handleAnalyze_progress_invariant oracle_object long_state chunks
              Hkey long_text_not_blank Hchunks)
    as (k & _ & Hrep & Hprog & Hproc & Hall).
  split; [|split; assumption].
  rewrite Hrep, (Hall Hnone). unfold len. rewrite Hlen. reflexivity.
Defined.

(** X17. A run in which every chunk completes: the handler returns with
    the items of all chunks in document order as the result set (whatever
    the result set held before), no error, the progress null and the
    processing flag off, after one call per chunk. *)
Theorem handleAnalyze_complete
    (oracle : nat -> jsstring -> oracle_outcome) (st : AppState)
    (chunks : list Chunk) (items : nat -> list json) :
  apiKey st <> [] -> trim (inputText st) <> [] ->
  createChunks (inputText st) CHUNK_SIZE = Some chunks ->
  (forall j, (j < List.length chunks)%nat ->
     verifyManuscript (oracle j) (chunk_content (inputText st) chunks j)
       (apiKey st) = Ok (JArray (items j))) ->
  ended (handleAnalyze oracle st) = Returned
  /\ results (final (handleAnalyze oracle st))
     = flat_map items (seq 0 (List.length chunks))
  /\ error (final (handleAnalyze oracle st)) = None
  /\ isProcessing (final (handleAnalyze oracle st)) = false
  /\ progress (final (handleAnalyze oracle st)) = None
  /\ verified (log (handleAnalyze oracle st))
     = map (chunk_content (inputText st) chunks)
           (seq 0 (List.length chunks)).
Proof.
  intros Hkey Htext Hchunks Hall.
  rewrite (handleAnalyze_complete_run oracle st chunks items
             Hkey Htext Hchunks Hall).
  unfold finish. cbn [ended final log].
  match goal with
  | |- context [after_chunks items ?n 0 ?m ?s0] =>
      destruct (after_chunks_fields items n m 0 s0) as (Hr & He & Hp)
  end.
  split; [reflexivity|]. split; [|split; [|split; [|split]]].
  - cbn [results setProgress setIsProcessing]. rewrite Hr. reflexivity.
  - cbn [error setProgress setIsProcessing]. rewrite He. reflexivity.
  - reflexivity.
  - reflexivity.
  - rewrite !verified_app, verified_completed. cbn.
    rewrite app_nil_r. reflexivity.
Qed.

Lemma handleAnalyze_complete_witness :
  apiKey small_state <> [] /\ trim (inputText small_state) <> []
  /\ createChunks (inputText small_state) CHUNK_SIZE
     = Some [mkChunk (inputText small_state) 0]
  /\ results (final (handleAnalyze oracle_bogus small_state)) = [bogus_item]
  /\ error (final (handleAnalyze oracle_bogus small_state)) = None.
Proof.
  split; [discriminate|]. split; [discriminate|].
  split; [exact small_state_chunks|].
  destruct (handleAnalyze_complete oracle_bogus small_state _
              (fun _ => [bogus_item])
              ltac:(discriminate) ltac:(discriminate) small_state_chunks)
    as (_ & Hres & Herr & _).
  - intros j Hj. assert (j = 0)%nat by (simpl in Hj; lia). subst j.
    reflexivity.
  - split; [exact Hres|exact Herr].
Defined.

(** X18. Malformed output in a run: when every call is answered, each
    response either parsing to an array of items or not parsing at all,
    the run returns with no error, and its result set holds the items of
    the chunks whose responses parsed, in document order; a chunk whose
    response does not parse contributes nothing. *)
Theorem handleAnalyze_tolerates_malformed
    (oracle : nat -> jsstring -> oracle_outcome) (st : AppState)
    (chunks : list Chunk) (items : nat -> list json) :
  apiKey st <> [] -> trim (inputText st) <> [] ->
  createChunks (inputText st) CHUNK_SIZE = Some chunks ->
  (forall j, (j < List.length chunks)%nat ->
     exists response,
       oracle j (chunk_content (inputText st) chunks j)
         = Responded (Some response)
       /\ (JSON_parse (cleanJson response) = Some (JArray (items j))
           \/ (JSON_parse (cleanJson response) = None /\ items j = []))) ->
  ended (handleAnalyze oracle st) = Returned
  /\ error (final (handleAnalyze oracle st)) = None
  /\ results (final (handleAnalyze oracle st))
     = flat_map items (seq 0 (List.length chunks)).
Proof.
  intros Hkey Htext Hchunks Hall.
  assert (Hok : forall j, (j < List.length chunks)%nat ->
            verifyManuscript (oracle j)
              (chunk_content (inputText st) chunks j) (apiKey st)
            = Ok (JArray (items j))).
  { intros j Hj. destruct (Hall j Hj) as (response & Hresp & Hparse).
    rewrite (verifyManuscript_responded _ _ _ _ Hkey Hresp).
    destruct Hparse as [-> | [-> ->]]; reflexivity. }
  rewrite (handleAnalyze_complete_run oracle st chunks items
             Hkey Htext Hchunks Hok).
  unfold finish. cbn [ended final].
  match goal with
  | |- context [after_chunks items ?n 0 ?m ?s0] =>
      destruct (after_chunks_fields items n m 0 s0) as (Hr & He & _)
  end.
  split; [reflexivity|]. split.
  - cbn [error setProgress setIsProcessing]. rewrite He. reflexivity.
  - cbn [results setProgress setIsProcessing]. rewrite Hr. reflexivity.
Qed.

Lemma handleAnalyze_tolerates_malformed_witness :
  apiKey small_state <> [] /\ trim (inputText small_state) <> []
  /\ createChunks (inputText small_state) CHUNK_SIZE
     = Some [mkChunk (inputText small_state) 0]
  /\ JSON_parse (cleanJson fenced_garbage) = None
  /\ ended (handleAnalyze oracle_garbage small_state) = Returned
  /\ error (final (handleAnalyze oracle_garbage small_state)) = None
  /\ results (final (handleAnalyze oracle_garbage small_state)) = [].
Proof.
  split; [discriminate|]. split; [discriminate|].
  split; [exact small_state_chunks|]. split; [reflexivity|].
  apply (handleAnalyze_tolerates_malformed oracle_garbage small_state _
           (fun _ => []) ltac:(discriminate) ltac:(discriminate)
           small_state_chunks).
  intros j Hj. exists fenced_garbage. split; [reflexivity|].
  right. split; reflexivity.
Defined.

(** ** Context stitcher: where the hint comes from *)

Lemma match_marker_split (x : N) (s m : jsstring) :
  match_marker (x :: s) = Some m ->
  exists pre rest,
    s = pre ++ rest /\ Forall (fun c => c <> LBRACKET) pre
    /\ List.length m = S (List.length pre).
Proof.
  intros Hm.
  destruct (match_marker_sound _ _ Hm) as [(ds & _ & Hall & ->) Hocc].
  destruct (occurs_at_0_split _ _ Hocc) as [rest Hs].
  cbn [app] in Hs. injection Hs as _ ->.
  exists (UPPER_P :: ds ++ [RBRACKET]), rest. split; [reflexivity|]. split.
  - constructor; [discriminate|]. apply Forall_app. split.
    + eapply Forall_impl; [|exact Hall]. apply digit_not_bracket.
    + constructor; [discriminate|constructor].
  - reflexivity.
Qed.

Lemma match_marker_of_prefix (k : nat) (s m : jsstring) :
  match_marker (firstn k s) = Some m -> match_marker s = Some m.
Proof.
  intros Hm. destruct (match_marker_sound _ _ Hm) as [Hmk Hocc].
  apply match_marker_complete; [exact Hmk|].
  unfold occurs_at in *. cbn [skipn] in *.
  rewrite firstn_firstn in Hocc.
  assert (Hlen : (List.length m <= k)%nat).
  { pose proof (f_equal (@List.length N) Hocc) as E.
    rewrite length_firstn in E. lia. }
  rewrite Nat.min_l in Hocc by exact Hlen. exact Hocc.
Qed.

Lemma match_marker_in_prefix (k : nat) (s m : jsstring) :
  match_marker s = Some m -> (List.length m <= k)%nat ->
  match_marker (firstn k s) = Some m.
Proof.
  intros Hm Hlen. destruct (match_marker_sound _ _ Hm) as [Hmk Hocc].
  apply match_marker_complete; [exact Hmk|].
  unfold occurs_at in *. cbn [skipn] in *.
  rewrite firstn_firstn, Nat.min_l by exact Hlen. exact Hocc.
Qed.

Lemma all_markers_no_bracket (s : jsstring) :
  Forall (fun c => c <> LBRACKET) s -> all_markers s = [].
Proof.
  intros H. rewrite <- (app_nil_r s). apply (all_markers_skip_prefix s [] H).
Qed.

Lemma Forall_firstn {A} (P : A -> Prop) (k : nat) (l : list A) :
  Forall P l -> Forall P (firstn k l).
Proof.
  intros H. revert k. induction H as [|x l Hx _ IH]; intros [|k];
    cbn [firstn]; constructor; auto.
Qed.

(** The markers of a prefix of a text are the first markers of the
    text. *)
Lemma all_markers_firstn (s : jsstring) :
  forall k, exists m, all_markers (firstn k s) = firstn m (all_markers s).
Proof.
  induction s as [|x s IH]; intros k.
  - exists 0%nat. destruct k; reflexivity.
  - destruct k as [|k]; [exists 0%nat; reflexivity|].
    destruct (IH k) as [m Hm]. cbn [firstn all_markers].
    destruct (match_marker (x :: s)) as [m0|] eqn:Hfull.
    + destruct (match_marker (x :: firstn k s)) as [m1|] eqn:Hpre.
      * apply (match_marker_of_prefix (S k) (x :: s)) in Hpre.
        rewrite Hfull in Hpre. injection Hpre as <-.
        exists (S m). cbn [firstn]. rewrite Hm. reflexivity.
      * exists 0%nat. cbn [firstn].
        destruct (Nat.le_gt_cases (List.length m0) (S k)) as [Hle|Hgt].
        { pose proof (match_marker_in_prefix (S k) (x :: s) m0 Hfull Hle) as E.
          cbn [firstn] in E. congruence. }
        destruct (match_marker_split x s m0 Hfull)
          as (pre & rest & -> & Hpre' & Hlen).
        rewrite firstn_app.
        replace (k - List.length pre)%nat with 0%nat by lia.
        cbn [firstn]. rewrite app_nil_r.
        apply all_markers_no_bracket, Forall_firstn, Hpre'.
    + destruct (match_marker (x :: firstn k s)) as [m1|] eqn:Hpre.
      * apply (match_marker_of_prefix (S k) (x :: s)) in Hpre. congruence.
      * exists m. exact Hm.
Qed.

Lemma slice_from_start {A} (s : list A) (b : Z) :
  exists k, slice s 0 b = firstn k s.
Proof.
  unfold slice. eexists.
  replace (clamp_index (len s) 0) with 0
    by (unfold clamp_index; cbn; pose proof (len_nonneg s); lia).
  cbn [Z.to_nat skipn]. reflexivity.
Qed.

Lemma last_firstn {A} (l : list A) (d : A) :
  forall m, (m < List.length l)%nat ->
    last (firstn (S m) l) d = nth m l d.
Proof.
  induction l as [|x l IH]; intros m Hm; [simpl in Hm; lia|].
  destruct m as [|m].
  - reflexivity.
  - cbn [firstn nth]. simpl in Hm.
    destruct l as [|y l]; [simpl in Hm; lia|].
    rewrite <- (IH m) by lia. reflexivity.
Qed.

Lemma annotate_hint_cases (T : jsstring) (i : Z) (c : Chunk) :
  exists m,
    (m <= List.length (matchAll_marker T))%nat
    /\ annotate T i c
       = match m with
         | O => text c
         | S m' => context_prefix (nth m' (matchAll_marker T) []) ++ text c
         end.
Proof.
  unfold annotate. destruct (i >? 0); [|exists 0%nat; split; [lia|reflexivity]].
  destruct (slice_from_start T (startIndex c)) as [k ->].
  rewrite !matchAll_marker_all.
  destruct (all_markers_firstn T k) as [m Hm]. rewrite Hm.
  set (L := all_markers T).
  destruct (Nat.min (List.length L) m) as [|m'] eqn:Hmin.
  - exists 0%nat. split; [lia|].
    assert (E : firstn m L = []).
    { apply length_zero_iff_nil. rewrite length_firstn. lia. }
    rewrite E. reflexivity.
  - exists (S m'). split; [lia|].
    assert (E : firstn m L = firstn (S m') L).
    { rewrite <- Hmin. destruct (Nat.le_gt_cases m (List.length L)).
      - rewrite Nat.min_r by lia. reflexivity.
      - rewrite Nat.min_l by lia. rewrite !firstn_all2 by lia. reflexivity. }
    rewrite E.
    assert (Hne : firstn (S m') L <> []).
    { destruct L; [simpl in Hmin; lia|discriminate]. }
    apply len_pos_nonempty in Hne. rewrite Hne.
    rewrite last_firstn by lia. reflexivity.
Qed.

(** X19. Source of the hint: whatever the chunk and its number, the text
    sent is either the chunk text itself or the chunk text with a hint in
    front of it, and the marker named in the hint is one of the markers
    of the full text (the m-th in order of position, for some m). *)
Theorem annotate_hint_from_text (T : jsstring) (i : Z) (c : Chunk) :
  exists m,
    (m <= List.length (matchAll_marker T))%nat
    /\ annotate T i c
       = match m with
         | O => text c
         | S m' => context_prefix (nth m' (matchAll_marker T) []) ++ text c
         end.
Proof. apply annotate_hint_cases. Qed.

(** ** File parsing *)

Lemma units_of_uint_digits (d : Decimal.uint) :
  Forall (fun c => is_digit c = true) (units_of_uint d).
Proof. induction d; cbn [units_of_uint]; constructor; auto. Qed.

Lemma number_to_string_nonempty (n : N) : number_to_string n <> [].
Proof.
  unfold number_to_string. destruct n as [|p]; [discriminate|].
  cbn [N.to_uint]. pose proof (DecimalPos.Unsigned.to_uint_nonnil p) as H.
  destruct (Pos.to_uint p); [congruence|discriminate..].
Qed.

Lemma page_marker_is_marker (i : N) : is_marker (page_marker i).
Proof.
  exists (number_to_string i). split; [apply number_to_string_nonempty|].
  split; [apply units_of_uint_digits|reflexivity].
Qed.

Lemma join_bracket_free (strs : list jsstring) :
  Forall bracket_free strs -> bracket_free (join [32%N] strs).
Proof.
  induction 1 as [|x strs Hx Hrest IH]; [constructor|].
  destruct strs as [|y strs]; [exact Hx|].
  change (join [32%N] (x :: y :: strs))
    with (x ++ [32%N] ++ join [32%N] (y :: strs)).
  apply Forall_app. split; [exact Hx|].
  apply Forall_app. split; [|exact IH].
  constructor; [discriminate|constructor].
Qed.

Lemma all_markers_page_block (i : N) (strs : list jsstring) (rest : jsstring) :
  Forall bracket_free strs ->
  all_markers (page_block i strs ++ rest) = page_marker i :: all_markers rest.
Proof.
  intros Hfree.
  destruct (page_marker_is_marker i) as (ds & Hne & Hds & Hpm).
  set (pre := UPPER_P :: ds ++ [RBRACKET]).
  set (tail := ([NL] ++ join [32%N] strs ++ [NL; NL]) ++ rest).
  assert (Hblock : page_block i strs ++ rest
                   = [NL] ++ LBRACKET :: (pre ++ tail)).
  { unfold page_block, tail, pre. rewrite Hpm, <- !app_assoc. reflexivity. }
  assert (Hm : match_marker (LBRACKET :: (pre ++ tail)) = Some (page_marker i)).
  { apply match_marker_complete; [apply page_marker_is_marker|].
    unfold occurs_at. cbn [skipn]. rewrite Hpm.
    change (LBRACKET :: pre ++ tail) with ((LBRACKET :: pre) ++ tail).
    apply firstn_app_exact. }
  rewrite Hblock.
  rewrite all_markers_skip_prefix by (repeat constructor; discriminate).
  cbn [all_markers]. rewrite Hm. f_equal.
  rewrite all_markers_skip_prefix.
  - unfold tail. apply all_markers_skip_prefix.
    repeat (apply Forall_app; split);
      try (repeat constructor; discriminate).
    apply join_bracket_free, Hfree.
  - unfold pre. constructor; [discriminate|]. apply Forall_app. split.
    + eapply Forall_impl; [|exact Hds]. apply digit_not_bracket.
    + repeat constructor. discriminate.
Qed.

Lemma parsePdf_pages_blocks (pages : list (list jsstring)) :
  forall i acc, parsePdf_pages i pages acc = acc ++ page_blocks i pages.
Proof.
  induction pages as [|strs pages IH]; intros i acc.
  - cbn. rewrite app_nil_r. reflexivity.
  - cbn [parsePdf_pages page_blocks]. rewrite IH, <- app_assoc. reflexivity.
Qed.

Lemma all_markers_page_blocks (pages : list (list jsstring)) :
  Forall (Forall bracket_free) pages ->
  forall j,
    all_markers (page_blocks (N.of_nat j) pages)
    = map (fun k => page_marker (N.of_nat k)) (seq j (List.length pages)).
Proof.
  induction 1 as [|strs pages Hstrs _ IH]; intros j; [reflexivity|].
  cbn [page_blocks List.length seq map].
  rewrite (all_markers_page_block _ _ _ Hstrs). f_equal.
  replace (N.of_nat j + 1)%N with (N.of_nat (S j)) by lia. apply IH.
Qed.

(** X20. Page tags of a PDF text: when no string of the document holds an
    opening bracket, the markers that the stitcher finds in the text that
    [parsePdf] builds are exactly the page tags [P1], ..., [Pn] in order;
    so the hint put in front of a chunk always names a page of the
    document. *)
Theorem parsePdf_page_tags (pages : list (list jsstring)) :
  Forall (Forall bracket_free) pages ->
  exists T,
    parsePdf (Some pages) = Ok T
    /\ matchAll_marker T
       = map (fun k => page_marker (N.of_nat k))
             (seq 1 (List.length pages))
    /\ forall i c,
         exists k,
           (k <= List.length pages)%nat
           /\ annotate T i c
              = match k with
                | O => text c
                | S _ => context_prefix (page_marker (N.of_nat k)) ++ text c
                end.
Proof.
  intros Hfree. exists (parsePdf_pages 1 pages []). split; [reflexivity|].
  assert (Hmarkers : matchAll_marker (parsePdf_pages 1 pages [])
                     = map (fun k => page_marker (N.of_nat k))
                           (seq 1 (List.length pages))).
  { rewrite matchAll_marker_all, parsePdf_pages_blocks. cbn [app].
    apply (all_markers_page_blocks pages Hfree 1). }
  split; [exact Hmarkers|].
  intros i c.
  destruct (annotate_hint_cases (parsePdf_pages 1 pages []) i c)
    as (m & Hm & Hann).
  rewrite Hmarkers, length_map, length_seq in Hm.
  exists m. split; [exact Hm|]. rewrite Hann.
  destruct m as [|m']; [reflexivity|].
  rewrite Hmarkers.
  rewrite (nth_indep _ [] (page_marker (N.of_nat 0)))
    by (rewrite length_map, length_seq; lia).
  rewrite (map_nth (fun k => page_marker (N.of_nat k))).
  rewrite seq_nth by lia. reflexivity.
Qed.

Lemma parsePdf_page_tags_witness :
  Forall (Forall bracket_free)
    [[of_string "Alpha"; of_string "beta"]; [of_string "Gamma"]]
  /\ exists T,
       parsePdf (Some [[of_string "Alpha"; of_string "beta"];
                       [of_string "Gamma"]]) = Ok T
       /\ matchAll_marker T = [of_string "[P1]"; of_string "[P2]"].
Proof.
  assert (H : Forall (Forall bracket_free)
                [[of_string "Alpha"; of_string "beta"]; [of_string "Gamma"]]).
  { repeat constructor; discriminate. }
  split; [exact H|].
  destruct (parsePdf_page_tags _ H) as (T & HT & Hm & _).
  exists T. split; [exact HT|exact Hm].
Defined.

(** X21. Word documents: the header that [parseDocx] puts in front of the
    raw text is not a marker and hides none, so the markers of the text
    are those of the document itself; a document without opening bracket
    is never given a hint. *)
Theorem parseDocx_no_page_tags (value : jsstring) :
  exists T,
    parseDocx (Some value) = Ok T
    /\ matchAll_marker T = matchAll_marker value
    /\ (bracket_free value -> forall i c, annotate T i c = text c).
Proof.
  exists (docx_header ++ value). split; [reflexivity|].
  assert (Hm : matchAll_marker (docx_header ++ value) = matchAll_marker value).
  { rewrite !matchAll_marker_all. unfold docx_header.
    change ((of_string "[Word Document Content]" ++ [NL]) ++ value)
      with (LBRACKET
            :: (of_string "Word Document Content]" ++ [NL]) ++ value).
    cbn [all_markers].
    assert (Hno : match_marker
                    (LBRACKET
                     :: (of_string "Word Document Content]" ++ [NL]) ++ value)
                  = None) by reflexivity.
    rewrite Hno. apply all_markers_skip_prefix.
    repeat constructor; discriminate. }
  split; [exact Hm|].
  intros Hfree i c.
  destruct (annotate_hint_cases (docx_header ++ value) i c) as (m & Hle & ->).
  rewrite Hm, matchAll_marker_all, (all_markers_no_bracket _ Hfree) in Hle.
  destruct m; [reflexivity|simpl in Hle; lia].
Qed.

Lemma parseDocx_no_page_tags_witness :
  bracket_free (of_string "Plain words.")
  /\ exists T,
       parseDocx (Some (of_string "Plain words.")) = Ok T
       /\ forall i c, annotate T i c = text c.
Proof.
  assert (H : bracket_free (of_string "Plain words."))
    by (repeat constructor; discriminate).
  split; [exact H|].
  destruct (parseDocx_no_page_tags (of_string "Plain words."))
    as (T & HT & _ & Hann).
  exists T. split; [exact HT|exact (Hann H)].
Defined.

(** X22. Upload: with no file nothing changes; with a file the state at
    the end does not depend on the state before: the result set is
    emptied and the parsing flag is off, and either the file was read (its text is the input
    text, its name is kept, no error) or it was not (the input text is
    empty, the name is dropped, the error message is set). *)
Theorem handleFileChange_outcome (f : File) (st : UploadState) :
  handleFileChange None st = st
  /\ (forall st', handleFileChange (Some f) st' = handleFileChange (Some f) st)
  /\ up_results (handleFileChange (Some f) st) = []
  /\ up_isParsing (handleFileChange (Some f) st) = false
  /\ ((exists t,
         read_file f = Ok t
         /\ handleFileChange (Some f) st
            = mkUpload (Some (file_name f)) None false t [])
      \/ (exists e,
            read_file f = Throw e
            /\ handleFileChange (Some f) st
               = mkUpload None (Some msg_bad_file) false [] [])).
Proof.
  split; [reflexivity|]. unfold handleFileChange.
  destruct (read_file f) as [t|e] eqn:Hread.
  - split; [reflexivity|]. split; [reflexivity|]. split; [reflexivity|].
    left. exists t. split; reflexivity.
  - split; [reflexivity|]. split; [reflexivity|]. split; [reflexivity|].
    right. exists e. split; reflexivity.
Qed.

(** X23. Display of long texts: the displayed text is never longer than
    the limit of 50000 units plus the notice, it shows the first 50000
    units of the text unchanged, and a text within the limit is shown as
    it is. *)
Theorem displayText_bounded (txt : jsstring) :
  len (displayText txt) <= DISPLAY_LIMIT + len truncation_notice
  /\ slice (displayText txt) 0 DISPLAY_LIMIT = slice txt 0 DISPLAY_LIMIT
  /\ (len txt <= DISPLAY_LIMIT -> displayText txt = txt).
Proof.
  unfold displayText, DISPLAY_LIMIT.
  pose proof (len_nonneg truncation_notice) as Hn.
  destruct (Z.gtb_spec (len txt) 50000) as [Hlong|Hshort].
  - split; [|split; [|lia]].
    + rewrite len_app, len_slice by lia. lia.
    + set (n := Z.to_nat 50000).
      assert (E : slice txt 0 50000 = firstn n txt).
      { rewrite slice_in_range by lia. rewrite Z.sub_0_r. reflexivity. }
      rewrite E.
      assert (Hlen : List.length (firstn n txt) = n).
      { rewrite length_firstn. unfold len in Hlong. lia. }
      assert (Hge : 50000 <= len (firstn n txt ++ truncation_notice)).
      { rewrite len_app. unfold len at 1. rewrite Hlen. unfold n. lia. }
      rewrite slice_in_range by lia.
      rewrite Z.sub_0_r. change (Z.to_nat 0) with 0%nat. cbn [skipn].
      fold n. rewrite <- Hlen at 1. apply firstn_app_exact.
  - split; [lia|]. split; reflexivity.
Qed.

Lemma displayText_bounded_witness :
  len sample_text <= DISPLAY_LIMIT /\ displayText sample_text = sample_text.
Proof.
  split; [vm_compute; discriminate|].
  apply (proj2 (proj2 (displayText_bounded sample_text))).
  vm_compute. discriminate.
Defined.

Lemma getItem_setItem (k v : jsstring) (s : Storage) :
  getItem k (setItem k v s) = Some v.
Proof.
  assert (Hk : jsstring_eqb k k = true) by (apply jsstring_eqb_eq; reflexivity).
  induction s as [|[k' v'] s IH]; cbn [setItem getItem].
  - rewrite Hk. reflexivity.
  - destruct (jsstring_eqb k' k) eqn:E; cbn [getItem].
    + rewrite Hk. reflexivity.
    + rewrite E. exact IH.
Qed.

Lemma getItem_setItem_other (k k2 v : jsstring) (s : Storage) :
  k2 <> k -> getItem k2 (setItem k v s) = getItem k2 s.
Proof.
  intros Hne.
  assert (Hk : jsstring_eqb k k2 = false).
  { destruct (jsstring_eqb k k2) eqn:E; [|reflexivity].
    apply jsstring_eqb_eq in E. congruence. }
  induction s as [|[k' v'] s IH]; cbn [setItem getItem].
  - rewrite Hk. reflexivity.
  - destruct (jsstring_eqb k' k) eqn:E; cbn [getItem].
    + apply jsstring_eqb_eq in E. subst k'. rewrite Hk. reflexivity.
    + rewrite IH. reflexivity.
Qed.

(** X24. Stored key: after a change of the key, a component mounted anew
    (its key empty) loads exactly the key that was entered, and the change
    touches no other item of the storage. *)
Theorem stored_key_round_trip (newKey : jsstring) (s : Storage) :
  load_stored_key (snd (handleApiKeyChange newKey s)) [] = newKey
  /\ fst (handleApiKeyChange newKey s) = newKey
  /\ forall k, k <> KEY_NAME ->
       getItem k (snd (handleApiKeyChange newKey s)) = getItem k s.
Proof.
  unfold handleApiKeyChange, load_stored_key. cbn [fst snd].
  rewrite getItem_setItem. split; [destruct newKey; reflexivity|].
  split; [reflexivity|].
  intros k Hk. apply getItem_setItem_other, Hk.
Qed.

Lemma stored_key_round_trip_witness :
  of_string "theme" <> KEY_NAME
  /\ getItem (of_string "theme")
       (snd (handleApiKeyChange sample_key
               [(of_string "theme", of_string "dark")]))
     = Some (of_string "dark")
  /\ load_stored_key
       (snd (handleApiKeyChange sample_key
               [(of_string "theme", of_string "dark")])) []
     = sample_key.
Proof.
  split; [discriminate|]. split.
  - exact (proj2 (proj2 (stored_key_round_trip sample_key
                           [(of_string "theme", of_string "dark")]))
             (of_string "theme") ltac:(discriminate)).
  - exact (proj1 (stored_key_round_trip sample_key
                    [(of_string "theme", of_string "dark")])).
Defined.

Lemma stats_throws_iff_null_witness :
  In JNull [item_json sample_item; JNull]
  /\ stats [item_json sample_item; JNull] = Throw TypeError.
Proof.
  assert (H : In JNull [item_json sample_item; JNull])
    by (right; left; reflexivity).
  split; [exact H|].
  exact (proj2 (proj1 (stats_throws_iff_null [item_json sample_item; JNull])) H).
Defined.

(** X25. Blank responses: a response whose text is missing, empty or all
    whitespace gives the empty array, and so does a response that holds
    nothing but an opening and a closing fence. *)
Theorem verifyManuscript_blank_response
    (oracle : jsstring -> oracle_outcome) (txt key : jsstring) :
  key <> [] ->
  (oracle txt = Responded None ->
   verifyManuscript oracle txt key = Ok (JArray []))
  /\ (forall response,
        oracle txt = Responded (Some response) ->
        blank response \/ response = fence_json ++ [NL] ++ fence
        \/ response = fence ++ [NL] ++ fence ->
        verifyManuscript oracle txt key = Ok (JArray [])).
Proof.
  intros Hkey. split.
  - intros Hresp. unfold verifyManuscript.
    rewrite (getGeminiClient_ok key Hkey), Hresp. reflexivity.
  - intros response Hresp Hform.
    rewrite (verifyManuscript_responded oracle txt key response Hkey Hresp).
    destruct Hform as [Hblank|[-> | ->]]; [|reflexivity|reflexivity].
    unfold cleanJson. rewrite (trim_blank response Hblank). reflexivity.
Qed.

Lemma verifyManuscript_blank_response_witness :
  sample_key <> [] /\ blank (of_string "  ")
  /\ verifyManuscript (fun _ => Responded (Some (of_string "  ")))
       sample_text sample_key
     = Ok (JArray []).
Proof.
  assert (Hb : blank (of_string "  ")) by (repeat constructor).
  split; [discriminate|]. split; [exact Hb|].
  apply (proj2 (verifyManuscript_blank_response
                  (fun _ => Responded (Some (of_string "  ")))
                  sample_text sample_key ltac:(discriminate))
           (of_string "  ") eq_refl).
  left. exact Hb.
Defined.
